(** * foto-vista-hub: story playback, like reconciliation, media classification

    A shallow embedding of
    - [src/lib/mediaUtils.ts]                      (module [MediaUtils]),
    - [src/components/stories/StoryViewer.tsx]     (module [StoryViewer]),
    - the part of [src/components/stories/StoriesCarousel.tsx] that owns
      the viewer's [userStories] prop,
    together with the properties the design document states about them.

    Data.  JavaScript numbers that hold array indices, lengths, like
    counts and the timer's progress are integers and are modelled in [Z];
    [undefined] and [null] are [None]; a [Record<string, _>] is a
    [gmap string _].  URLs and MIME types are byte strings, with ASCII
    case folding for [toLowerCase].

    Execution.  A handler runs against the props and state of the last
    committed render and requests new ones; React renders them, runs the
    effects whose dependencies changed, and renders again ([commit]).  A
    render that throws leaves no viewer ([Crashed]).  [handleLike] is split
    at its [await].  The progress of a video story, a floating-point ratio
    written by the media element's [timeupdate] events, is not modelled;
    its [ended] event calls [goToNextStory] like every other Advance. *)

From stdpp Require Import gmap strings list fin_maps sorting.
From Stdlib Require Import ZArith QArith Ascii.

Local Open Scope Z_scope.

(* ===================================================================== *)
(** * src/lib/mediaUtils.ts                                               *)
(* ===================================================================== *)

Module MediaUtils.

(** The two fields of a DOM [File] the module reads. *)
Record File := { type : string; size : Z }.

(** [String.prototype.startsWith]. *)
Definition startsWith (s pre : string) : bool := String.prefix pre s.

(** [String.prototype.includes]: [sub] occurs somewhere in [s]. *)
Fixpoint includes (s sub : string) : bool :=
  String.prefix sub s ||
  match s with
  | EmptyString => false
  | String _ s' => includes s' sub
  end.

Definition lowerChar (c : ascii) : ascii :=
  let n := nat_of_ascii c in
  if ((65 <=? n) && (n <=? 90))%nat then ascii_of_nat (n + 32) else c.

(** [String.prototype.toLowerCase] on ASCII text: the letters A-Z are
    folded and every other byte is kept.  The two characters outside
    ASCII whose lower case contains an ASCII letter, U+212A (to k) and
    U+0130 (to i followed by U+0307), are outside the model. *)
Fixpoint toLowerCase (s : string) : string :=
  match s with
  | EmptyString => EmptyString
  | String c s' => String (lowerChar c) (toLowerCase s')
  end.

Definition isVideoFile (file : File) : bool := startsWith (type file) "video/".

Definition isImageFile (file : File) : bool := startsWith (type file) "image/".

Definition isValidMediaFile (file : File) : bool :=
  isImageFile file || isVideoFile file.

Definition videoExtensions : list string :=
  [".mp4"; ".webm"; ".mov"; ".avi"; ".mkv"; ".m4v"].

Definition isVideoUrl (url : string) : bool :=
  let lowerUrl := toLowerCase url in
  existsb (fun ext => includes lowerUrl ext) videoExtensions.

Definition getAcceptedMediaTypes : string := "image/*,video/*".

Definition MAX_IMAGE_SIZE : Z := 10 * 1024 * 1024.
Definition MAX_VIDEO_SIZE : Z := 50 * 1024 * 1024.

Record Validation := { valid : bool; error : option string }.

Definition validateMediaFile (file : File) : Validation :=
  if negb (isValidMediaFile file) then
    {| valid := false; error := Some "Please select an image or video file" |}
  else if isImageFile file && (MAX_IMAGE_SIZE <? size file) then
    {| valid := false; error := Some "Image must be less than 10MB" |}
  else if isVideoFile file && (MAX_VIDEO_SIZE <? size file) then
    {| valid := false; error := Some "Video must be less than 50MB" |}
  else {| valid := true; error := None |}.

(** The callers turn the two predicates into a choice of element:
    [isVideo ? <video/> : <img/>] (StoryViewer.tsx lines 230-244,
    Create.tsx lines 114-122).  [classify] names that choice; a local
    file goes through [isVideoFile] and a URL through [isVideoUrl]. *)
Inductive MediaKind := image | video.

Inductive MediaInput :=
| LocalFile (file : File)
| Url (url : string).

Definition isVideo (i : MediaInput) : bool :=
  match i with
  | LocalFile f => isVideoFile f
  | Url u => isVideoUrl u
  end.

Definition classify (i : MediaInput) : MediaKind :=
  if isVideo i then video else image.

End MediaUtils.

(* ===================================================================== *)
(** * src/components/stories/StoryViewer.tsx                              *)
(* ===================================================================== *)

Module StoryViewer.
Import MediaUtils.

Record Story := {
  id : string;
  story_user_id : string;
  image_url : string;
  created_at : string;
}.

Record UserWithStories := {
  user_id : string;
  username : string;
  avatar_url : option string;
  stories : list Story;
}.

(** One entry of the [likes] record. *)
Record LikeState := { isLiked : bool; count : Z }.

(** The props and hooks of one mounted [StoryViewer].  [userStories] is
    the prop, which is the parent's [selectedUserStories]; the remaining
    fields are the component's [useState] cells. *)
Record Viewer := {
  userStories : UserWithStories;
  currentIndex : Z;
  progress : Z;
  isPaused : bool;
  likes : gmap string LikeState;
  isAnimating : bool;
}.

(** What the carousel shows.  [Closed] is [selectedUserStories === null]
    (the viewer is not mounted).  [Crashed] is the result of a render that
    threw: [currentStory.image_url] with [currentStory] undefined. *)
Inductive Screen :=
| Closed
| Open (v : Viewer)
| Crashed.

(** ** JavaScript array primitives *)

(** [arr[i]] for a numeric [i]. *)
Definition at_ {A} (arr : list A) (i : Z) : option A :=
  if i <? 0 then None else arr !! Z.to_nat i.

Definition length_ {A} (arr : list A) : Z := Z.of_nat (length arr).

(** [Array.prototype.findIndex]: the first index whose element satisfies
    [p], or -1. *)
Fixpoint findIndexFrom {A} (p : A -> bool) (i : Z) (arr : list A) : Z :=
  match arr with
  | [] => -1
  | x :: arr' => if p x then i else findIndexFrom p (i + 1) arr'
  end.

Definition findIndex {A} (p : A -> bool) (arr : list A) : Z :=
  findIndexFrom p 0 arr.

(** ** State setters *)

Definition setUserStories (us : UserWithStories) (v : Viewer) : Viewer :=
  {| userStories := us; currentIndex := currentIndex v;
     progress := progress v; isPaused := isPaused v;
     likes := likes v; isAnimating := isAnimating v |}.

Definition setCurrentIndex (i : Z) (v : Viewer) : Viewer :=
  {| userStories := userStories v; currentIndex := i;
     progress := progress v; isPaused := isPaused v;
     likes := likes v; isAnimating := isAnimating v |}.

Definition setProgress (p : Z) (v : Viewer) : Viewer :=
  {| userStories := userStories v; currentIndex := currentIndex v;
     progress := p; isPaused := isPaused v;
     likes := likes v; isAnimating := isAnimating v |}.

Definition setIsPaused (b : bool) (v : Viewer) : Viewer :=
  {| userStories := userStories v; currentIndex := currentIndex v;
     progress := progress v; isPaused := b;
     likes := likes v; isAnimating := isAnimating v |}.

Definition setLikes (f : gmap string LikeState -> gmap string LikeState)
    (v : Viewer) : Viewer :=
  {| userStories := userStories v; currentIndex := currentIndex v;
     progress := progress v; isPaused := isPaused v;
     likes := f (likes v); isAnimating := isAnimating v |}.

Definition setIsAnimating (b : bool) (v : Viewer) : Viewer :=
  {| userStories := userStories v; currentIndex := currentIndex v;
     progress := progress v; isPaused := isPaused v;
     likes := likes v; isAnimating := b |}.

(** ** Values derived on every render (lines 41-46) *)

Definition currentStory (v : Viewer) : option Story :=
  at_ (stories (userStories v)) (currentIndex v).

Definition sameUser (a b : UserWithStories) : bool :=
  bool_decide (user_id a = user_id b).

Section Playback.

(** The [allUsersStories] prop; the carousel's [usersWithStories]. *)
Variable allUsersStories : list UserWithStories.

Definition currentUserIndex (v : Viewer) : Z :=
  findIndex (fun u => sameUser u (userStories v)) allUsersStories.

Definition hasNextUser (v : Viewer) : bool :=
  currentUserIndex v <? length_ allUsersStories - 1.

Definition hasPrevUser (v : Viewer) : bool :=
  0 <? currentUserIndex v.

(** [onClose]: the parent sets [selectedUserStories] to [null]. *)
Definition onClose : Screen := Closed.

(** [onNavigateUser(u)]: the parent sets [selectedUserStories] to [u]; the
    viewer stays mounted when [u] is truthy and is unmounted when [u] is
    [undefined]. *)
Definition onNavigateUser (u : option UserWithStories) (v : Viewer) : Screen :=
  match u with
  | Some us => Open (setUserStories us v)
  | None => Closed
  end.

(** ** Event handlers (lines 121-144): the props and state they request *)

Definition goToNextStory (v : Viewer) : Screen :=
  if currentIndex v <? length_ (stories (userStories v)) - 1 then
    Open (setProgress 0 (setCurrentIndex (currentIndex v + 1) v))
  else if hasNextUser v then
    onNavigateUser (at_ allUsersStories (currentUserIndex v + 1))
                   (setProgress 0 (setCurrentIndex 0 v))
  else onClose.

(** Were [prevUser] undefined, [onNavigateUser(undefined)] would already
    have been called when [prevUser.stories] throws; [hasPrevUser] rules
    that out ([PlaybackSpec.prevUser_defined]). *)
Definition goToPrevStory (v : Viewer) : Screen :=
  if 0 <? currentIndex v then
    Open (setProgress 0 (setCurrentIndex (currentIndex v - 1) v))
  else if hasPrevUser v then
    match at_ allUsersStories (currentUserIndex v - 1) with
    | Some prevUser =>
        onNavigateUser (Some prevUser)
          (setProgress 0 (setCurrentIndex (length_ (stories prevUser) - 1) v))
    | None => onNavigateUser None v
    end
  else Open v.

(** ** Render and effects *)

(** The effect of lines 218-221.  Its dependency is
    [userStories.user_id]: it runs after the first render and after every
    render in which that value differs from the previous render's. *)
Definition resetWhenUserChanges (before after : Viewer) : Viewer :=
  if sameUser (userStories before) (userStories after) then after
  else setProgress 0 (setCurrentIndex 0 after).

(** A render evaluates [currentStory.image_url] (line 42) and throws when
    [currentStory] is undefined. *)
Definition renders (v : Viewer) : bool :=
  match currentStory v with Some _ => true | None => false end.

Definition render (v : Viewer) : Screen :=
  if renders v then Open v else Crashed.

(** What React settles on after a handler that ran in [before] requested
    [after]: the requested props and state are rendered, the reset effect
    runs when the user changed, and its updates are rendered in turn. *)
Definition commit (before : Viewer) (after : Screen) : Screen :=
  match after with
  | Open v =>
      if renders v then render (resetWhenUserChanges before v) else Crashed
  | Closed => Closed
  | Crashed => Crashed
  end.

(** ** Transitions of the mounted viewer *)

Definition Advance (v : Viewer) : Screen := commit v (goToNextStory v).

Definition Retreat (v : Viewer) : Screen := commit v (goToPrevStory v).

(** The timer effect of lines 147-165. *)
Definition duration : Z := 5000.
Definition interval : Z := 50.

(** [(interval / duration) * 100]; the double quotient [0.01] times [100]
    rounds to exactly [1], so every value the timer writes to [progress]
    is an integer. *)
Definition increment : Z := interval * 100 / duration.

Definition isVideo (v : Viewer) : bool :=
  match currentStory v with
  | Some story => isVideoUrl (image_url story)
  | None => false
  end.

Definition timerRunning (v : Viewer) : bool := negb (isVideo v || isPaused v).

Definition mapOpen (f : Viewer -> Viewer) (s : Screen) : Screen :=
  match s with
  | Open v => Open (f v)
  | _ => s
  end.

(** One firing of the [setInterval] callback on a mounted viewer; the
    interval exists only while [timerRunning].  At 100 the updater calls
    [goToNextStory()] and returns 0. *)
Definition tick (v : Viewer) : Screen :=
  if timerRunning v then
    if 100 <=? progress v then
      commit v (mapOpen (setProgress 0) (goToNextStory v))
    else Open (setProgress (progress v + increment) v)
  else Open v.

(** The space key (lines 200-202). *)
Definition togglePause (v : Viewer) : Screen :=
  Open (setIsPaused (negb (isPaused v)) v).

(** ** StoriesCarousel.tsx: selecting a story circle (line 159) *)

(** A freshly mounted viewer. *)
Definition mount (us : UserWithStories) : Viewer :=
  {| userStories := us; currentIndex := 0; progress := 0;
     isPaused := false; likes := ∅; isAnimating := false |}.

Definition selectUser (us : UserWithStories) (s : Screen) : Screen :=
  match s with
  | Closed => render (mount us)
  | Open v => commit v (Open (setUserStories us v))
  | Crashed => Crashed
  end.

(** Lifting a transition of the mounted viewer to the screen. *)
Definition onScreen (f : Viewer -> Screen) (s : Screen) : Screen :=
  match s with
  | Open v => f v
  | _ => s
  end.

Inductive Op :=
| OpLoad (us : UserWithStories)
| OpAdvance
| OpRetreat
| OpTick
| OpTogglePause
| OpClose.

Definition step (o : Op) (s : Screen) : Screen :=
  match o with
  | OpLoad us => selectUser us s
  | OpAdvance => onScreen Advance s
  | OpRetreat => onScreen Retreat s
  | OpTick => onScreen tick s
  | OpTogglePause => onScreen togglePause s
  | OpClose => onScreen (fun _ => onClose) s
  end.

Definition run (ops : list Op) (s : Screen) : Screen :=
  foldl (fun s o => step o s) s ops.

(** [setInterval(_, interval)] has fired [ms / interval] times, rounded
    down, once [ms] milliseconds have passed. *)
Definition elapse (ms : Z) (s : Screen) : Screen :=
  Nat.iter (Z.to_nat (ms / interval)) (onScreen tick) s.

(** The cursor the design document speaks of: the index of the active
    user in [allUsersStories] and the index of the active story. *)
Definition position (s : Screen) : option (Z * Z) :=
  match s with
  | Open v => Some (currentUserIndex v, currentIndex v)
  | _ => None
  end.

End Playback.

(** ** Likes (lines 48-119 and 223) *)

(** The two writes to the [story_likes] table. *)
Inductive Request :=
| InsertLike (viewer_id story_id : string)
| DeleteLike (viewer_id story_id : string).

Definition defaultLike : LikeState := {| isLiked := false; count := 0 |}.

(** [likes[story_id] || { isLiked: false, count: 0 }]; a stored entry is
    an object and therefore truthy. *)
Definition likeOf (m : gmap string LikeState) (story_id : string) : LikeState :=
  default defaultLike (m !! story_id).

(** Line 223; [likes[undefined]] reads the key ["undefined"]. *)
Definition currentLike (v : Viewer) : LikeState :=
  match currentStory v with
  | Some cs => likeOf (likes v) (id cs)
  | None => likeOf (likes v) "undefined"
  end.

(** The resolution of [fetchLikes] (lines 58-65) for story [cs] with the
    rows [data], each row being the [user_id] of a liker. *)
Definition fetchLikesResolved (user : option string) (cs : Story)
    (data : option (list string)) (v : Viewer) : Viewer :=
  let likesList := default [] data in
  setLikes (fun prev =>
    <[id cs := {| isLiked := existsb (fun l => bool_decide (Some l = user)) likesList;
                  count := length_ likesList |}]> prev) v.

(** What [handleLike] has captured when it suspends on [await]. *)
Record Pending := {
  request : Request;
  pendingStory : Story;
  storyLike : LikeState;
}.

Inductive Began :=
| Rejected (notice : string)
| Issued (v : Viewer) (p : Pending).

(** [handleLike] up to its [await] (lines 71-92 and 101-109); [user] is
    the id of the signed-in user, if any. *)
Definition handleLikeBegin (user : option string) (v : Viewer) : Began :=
  match user, currentStory v with
  | Some uid, Some cs =>
      let storyLike := likeOf (likes v) (id cs) in
      let v := setIsAnimating true v in
      if isLiked storyLike then
        Issued
          (setLikes (fun prev =>
             <[id cs := {| isLiked := false; count := count storyLike - 1 |}]> prev) v)
          {| request := DeleteLike uid (id cs); pendingStory := cs;
             storyLike := storyLike |}
      else
        Issued
          (setLikes (fun prev =>
             <[id cs := {| isLiked := true; count := count storyLike + 1 |}]> prev) v)
          {| request := InsertLike uid (id cs); pendingStory := cs;
             storyLike := storyLike |}
  | _, _ => Rejected "Please sign in to like stories"
  end.

(** [handleLike] after its [await] (lines 94-100 and 111-117), given
    whether the response carries an [error]; returns the toasts raised. *)
Definition handleLikeResume (p : Pending) (error : bool) (v : Viewer)
    : Viewer * list string :=
  if error then
    if isLiked (storyLike p) then
      (setLikes (fun prev =>
         <[id (pendingStory p) :=
             {| isLiked := true; count := count (storyLike p) |}]> prev) v,
       ["Failed to unlike story"])
    else
      (setLikes (fun prev =>
         <[id (pendingStory p) :=
             {| isLiked := false; count := count (storyLike p) |}]> prev) v,
       ["Failed to like story"])
  else (v, []).

(** The [setTimeout] callback of line 80. *)
Definition animationTimeout (v : Viewer) : Viewer := setIsAnimating false v.

Record Outcome := {
  viewer : Viewer;
  toasts : list string;
  requests : list Request;
}.

(** One click on the like button, run to completion with no other event
    in between; [remote r] tells whether the response to [r] carries an
    error. *)
Definition handleLike (user : option string) (remote : Request -> bool)
    (v : Viewer) : Outcome :=
  match handleLikeBegin user v with
  | Rejected notice => {| viewer := v; toasts := [notice]; requests := [] |}
  | Issued v' p =>
      let '(v'', ts) := handleLikeResume p (remote (request p)) v' in
      {| viewer := v''; toasts := ts; requests := [request p] |}
  end.

Definition succeeds : Request -> bool := fun _ => false.
Definition fails : Request -> bool := fun _ => true.

(** ** Vocabulary of the design document *)

(** Every sequence has at least one story, and no two sequences belong
    to the same user (the carousel builds one sequence per profile that
    owns a story; [profiles.user_id] is [UNIQUE]). *)
Definition WellFormed (allUsersStories : list UserWithStories) : Prop :=
  NoDup (user_id <$> allUsersStories) /\
  Forall (fun u => stories u <> []) allUsersStories.

Definition totalStoryCount (allUsersStories : list UserWithStories) : nat :=
  sum_list ((fun u => length (stories u)) <$> allUsersStories).

(** The cursor invariant: the active story index is a valid index into
    the active user's stories and the progress is a percentage. *)
Definition indexValid (v : Viewer) : Prop :=
  0 <= currentIndex v < length_ (stories (userStories v)).

Definition cursorValid (v : Viewer) : Prop :=
  indexValid v /\ 0 <= progress v <= 100.

(** The active user is the [u]-th sequence of the list. *)
Definition located (allUsersStories : list UserWithStories) (v : Viewer)
    (u : nat) : Prop :=
  allUsersStories !! u = Some (userStories v).

(** Jump to story [i] of sequence [us] with the progress at zero. *)
Definition moveTo (us : UserWithStories) (i : Z) (v : Viewer) : Viewer :=
  setProgress 0 (setCurrentIndex i (setUserStories us v)).

(** The stories from the cursor to the end of the list, the one on
    screen included. *)
Definition remaining (allUsersStories : list UserWithStories) (s : Screen)
    : nat :=
  match s with
  | Open v =>
      (length (stories (userStories v)) - Z.to_nat (currentIndex v)) +
      totalStoryCount
        (drop (S (Z.to_nat (currentUserIndex allUsersStories v))) allUsersStories)
  | _ => 0
  end.

(** A closed viewer, or an open one whose cursor is on a story of the
    list. *)
Definition onList (allUsersStories : list UserWithStories) (s : Screen)
    : Prop :=
  match s with
  | Open v => (exists u, located allUsersStories v u) /\ indexValid v
  | Closed => True
  | Crashed => False
  end.

(** A selection in the carousel that the mounted viewer can render: the
    viewer is closed, or the selected sequence has a story at the current
    index. *)
Definition loadSafe (us : UserWithStories) (s : Screen) : Prop :=
  match s with
  | Open v => currentIndex v < length_ (stories us)
  | _ => True
  end.

Fixpoint loadsSafe (allUsersStories : list UserWithStories) (ops : list Op)
    (s : Screen) : Prop :=
  match ops with
  | [] => True
  | o :: ops' =>
      match o with
      | OpLoad us => us ∈ allUsersStories /\ loadSafe us s
      | _ => True
      end /\
      loadsSafe allUsersStories ops' (step allUsersStories o s)
  end.

Definition screenValid (s : Screen) : Prop :=
  match s with
  | Open v => cursorValid v
  | Closed => True
  | Crashed => False
  end.

End StoryViewer.

(* ===================================================================== *)
(** * StoryViewer.tsx: the chevrons, and likes in flight                   *)
(* ===================================================================== *)

Module StoryViewerEvents.
Import StoryViewer.

Section Events.

Variable allUsersStories : list UserWithStories.

(** The conditions under which the two chevrons are rendered (lines 319
    and 327). *)
Definition showPrevArrow (v : Viewer) : bool :=
  (0 <? currentIndex v) || hasPrevUser allUsersStories v.

Definition showNextArrow (v : Viewer) : bool :=
  (currentIndex v <? length_ (stories (userStories v)) - 1)
  || hasNextUser allUsersStories v.

(** The viewer together with the [handleLike] calls that are suspended
    on their [await], oldest first. *)
Record Session := {
  screen : Screen;
  inFlight : list Pending;
}.

Inductive Event :=
| EvPlay (o : Op)
| EvClick
| EvRespond (n : nat) (error : bool)
| EvFetched (cs : Story) (data : option (list string)).

(** One turn of the event loop.  [EvPlay] is a playback operation: a
    viewer that is closed or replaced by a fresh mount no longer hears
    from the calls in flight ([setLikes] on an unmounted component does
    nothing).  [EvClick] is [handleLike] up to its [await].
    [EvRespond n error] is the response to the [n]-th call in flight.
    [EvFetched cs data] is the resolution of a [fetchLikes] call that was
    started for story [cs]. *)
Definition react (user : option string) (e : Event) (x : Session) : Session :=
  match screen x with
  | Open v =>
      match e with
      | EvPlay o =>
          match step allUsersStories o (Open v) with
          | Open v' => {| screen := Open v'; inFlight := inFlight x |}
          | s' => {| screen := s'; inFlight := [] |}
          end
      | EvClick =>
          match handleLikeBegin user v with
          | Issued v' p => {| screen := Open v'; inFlight := inFlight x ++ [p] |}
          | Rejected _ => x
          end
      | EvRespond n error =>
          match inFlight x !! n with
          | Some p =>
              {| screen := Open (handleLikeResume p error v).1;
                 inFlight := delete n (inFlight x) |}
          | None => x
          end
      | EvFetched cs data =>
          {| screen := Open (fetchLikesResolved user cs data v);
             inFlight := inFlight x |}
      end
  | s =>
      match e with
      | EvPlay o => {| screen := step allUsersStories o s; inFlight := [] |}
      | _ => x
      end
  end.

Definition reactAll (user : option string) (es : list Event) (x : Session)
    : Session :=
  foldl (fun x e => react user e x) x es.

End Events.

Definition idle : Session := {| screen := Closed; inFlight := [] |}.

(** A like entry a reader can make sense of: the count is not negative,
    and it is at least one when the viewer's own like is in it. *)
Definition likeSane (l : LikeState) : Prop :=
  0 <= count l /\ (isLiked l = true -> 1 <= count l).

Definition likesSane (m : gmap string LikeState) : Prop :=
  forall k l, m !! k = Some l -> likeSane l.

(** What the event loop keeps true of a session. *)
Definition sessionSane (x : Session) : Prop :=
  match screen x with
  | Open v => likesSane (likes v)
  | _ => True
  end /\
  Forall (fun p => likeSane (storyLike p)) (inFlight x).

(** No story of the list is shown as a video. *)
Definition allImages (allUsersStories : list UserWithStories) : Prop :=
  Forall (fun u =>
            Forall (fun s => MediaUtils.isVideoUrl (image_url s) = false)
                   (stories u))
         allUsersStories.

(** An unpaused viewer at the start of a story of the list. *)
Definition walking (allUsersStories : list UserWithStories) (s : Screen)
    : Prop :=
  match s with
  | Open v =>
      (exists u, located allUsersStories v u) /\ indexValid v /\
      isPaused v = false /\ progress v = 0
  | Closed => True
  | Crashed => False
  end.

End StoryViewerEvents.

(* ===================================================================== *)
(** * src/pages/Create.tsx: choosing the media of a post                  *)
(* ===================================================================== *)

Module CreatePage.
Import MediaUtils.

(** The [useState] cells the two handlers write. *)
Record State := {
  selectedFile : option File;
  preview : option string;
  isVideo : bool;
}.

Definition initial : State :=
  {| selectedFile := None; preview := None; isVideo := false |}.

Section Handlers.

(** [URL.createObjectURL]. *)
Variable createObjectURL : File -> string.

(** [handleFileSelect] (lines 27-39) with [e.target.files?.[0]]; returns
    the new state and the argument of [toast.error], if it was called. *)
Definition handleFileSelect (file : option File) (st : State)
    : State * option (option string) :=
  match file with
  | Some file =>
      let validation := validateMediaFile file in
      if negb (valid validation) then (st, Some (error validation))
      else
        ({| selectedFile := Some file;
            preview := Some (createObjectURL file);
            isVideo := isVideoFile file |}, None)
  | None => (st, None)
  end.

(** [handleRemoveMedia] (lines 41-48). *)
Definition handleRemoveMedia (st : State) : State :=
  {| selectedFile := None; preview := None; isVideo := false |}.

Inductive Action :=
| Select (file : option File)
| Remove.

Definition act (a : Action) (st : State) : State :=
  match a with
  | Select file => (handleFileSelect file st).1
  | Remove => handleRemoveMedia st
  end.

Definition actAll (acts : list Action) (st : State) : State :=
  foldl (fun st a => act a st) st acts.

End Handlers.

(** What holds of the page's state between events. *)
Definition consistent (createObjectURL : File -> string) (st : State) : Prop :=
  match selectedFile st with
  | Some file =>
      valid (validateMediaFile file) = true /\
      isVideo st = isVideoFile file /\
      preview st = Some (createObjectURL file)
  | None => isVideo st = false /\ preview st = None
  end.

End CreatePage.

(* ===================================================================== *)
(** * StoriesCarousel.tsx: building the list of sequences                 *)
(* ===================================================================== *)

Module StoriesCarousel.
Import StoryViewer.

(** A row of the [profiles] query. *)
Record Profile := {
  profile_user_id : string;
  profile_username : string;
  profile_avatar_url : option string;
}.

(** A JavaScript [Map<string, V>]: keys in insertion order, each once. *)
Definition JsMap (V : Type) := list (string * V).

Fixpoint mapGet {V} (k : string) (m : JsMap V) : option V :=
  match m with
  | [] => None
  | (k', v) :: m' => if bool_decide (k' = k) then Some v else mapGet k m'
  end.

(** [Map.prototype.set]: an existing key keeps its place. *)
Fixpoint mapSet {V} (k : string) (v : V) (m : JsMap V) : JsMap V :=
  match m with
  | [] => [(k, v)]
  | (k', v') :: m' =>
      if bool_decide (k' = k) then (k, v) :: m' else (k', v') :: mapSet k v m'
  end.

Definition mapKeys {V} (m : JsMap V) : list string := fst <$> m.

(** Lines 56-62: group the rows by [user_id], keeping their order. *)
Definition groupStories (storiesData : list Story) : JsMap (list Story) :=
  foldl (fun m story =>
           let existing := default [] (mapGet (story_user_id story) m) in
           mapSet (story_user_id story) (existing ++ [story]) m)
        [] storiesData.

Section Sorting.

(** [new Date(s).getTime()] for the timestamps the table holds. *)
Variable getTime : string -> Z.

(** [Array.prototype.sort] with the comparator of line 89,
    [getTime(a) - getTime(b)]: the stable ascending order. *)
Fixpoint insertStory (x : Story) (l : list Story) : list Story :=
  match l with
  | [] => [x]
  | y :: l' =>
      if getTime (created_at x) <=? getTime (created_at y)
      then x :: y :: l'
      else y :: insertStory x l'
  end.

Fixpoint sortStories (l : list Story) : list Story :=
  match l with
  | [] => []
  | x :: l' => insertStory x (sortStories l')
  end.

Definition userWithStories (m : JsMap (list Story)) (profile : Profile)
    : UserWithStories :=
  {| user_id := profile_user_id profile;
     username := profile_username profile;
     avatar_url := profile_avatar_url profile;
     stories := sortStories (default [] (mapGet (profile_user_id profile) m)) |}.

(** Lines 80-98: one sequence per profile, the signed-in user's put in
    front ([unshift]) and the others appended ([push]); the flag tells
    whether the signed-in user has one. *)
Definition buildUsersStories (uid : string) (m : JsMap (list Story))
    (profiles : list Profile) : list UserWithStories * bool :=
  foldl (fun '(usersStories, hasCurrentUserStory) profile =>
           if bool_decide (profile_user_id profile = uid)
           then (userWithStories m profile :: usersStories, true)
           else (usersStories ++ [userWithStories m profile], hasCurrentUserStory))
        ([], false) profiles.

(** [fetchStories] (lines 31-102) from the rows of the [stories] query
    on: [None] when the function returns without setting the state,
    otherwise the values given to [setUsersWithStories] and
    [setCurrentUserHasStory].  [profilesOf ids] is the answer to the
    [profiles] query for the ids [ids]. *)
Definition fetchStories (user : option string)
    (storiesData : option (list Story))
    (profilesOf : list string -> option (list Profile))
    : option (list UserWithStories * bool) :=
  match user, storiesData with
  | Some uid, Some storiesData =>
      let userStoriesMap := groupStories storiesData in
      let userIds := mapKeys userStoriesMap in
      if bool_decide (length userIds = 0%nat) then Some ([], false)
      else
        match profilesOf userIds with
        | None => None
        | Some profiles => Some (buildUsersStories uid userStoriesMap profiles)
        end
  | _, _ => None
  end.

(** Not newer than. *)
Definition byTime (a b : Story) : Prop :=
  getTime (created_at a) <= getTime (created_at b).

End Sorting.

End StoriesCarousel.

(* ===================================================================== *)
(** * Sample data                                                         *)
(* ===================================================================== *)

(** Two users: Ana with three image stories and Ben with one video story,
    in the order the carousel lists them. *)
Module Sample.
Import StoryViewer.

Definition a1 : Story :=
  {| id := "a1"; story_user_id := "ana";
     image_url := "https://cdn.example/stories/ana/1.jpg";
     created_at := "2025-12-07T10:00:00Z" |}.

Definition a2 : Story :=
  {| id := "a2"; story_user_id := "ana";
     image_url := "https://cdn.example/stories/ana/2.png";
     created_at := "2025-12-07T11:00:00Z" |}.

Definition a3 : Story :=
  {| id := "a3"; story_user_id := "ana";
     image_url := "https://cdn.example/stories/ana/3.jpg";
     created_at := "2025-12-07T12:00:00Z" |}.

Definition b1 : Story :=
  {| id := "b1"; story_user_id := "ben";
     image_url := "https://cdn.example/stories/ben/1.mp4";
     created_at := "2025-12-07T09:00:00Z" |}.

Definition ana : UserWithStories :=
  {| user_id := "ana"; username := "Ana"; avatar_url := None;
     stories := [a1; a2; a3] |}.

Definition ben : UserWithStories :=
  {| user_id := "ben"; username := "Ben"; avatar_url := None;
     stories := [b1] |}.

Definition users : list UserWithStories := [ana; ben].

(** Ana's first story, fetched with four likes, none of them the
    viewer's. *)
Definition watching_a1 : Viewer :=
  setLikes (fun _ => {[ "a1" := {| isLiked := false; count := 4 |} ]})
    (mount ana).

(** Ana's last story. *)
Definition watching_a3 : Viewer := setCurrentIndex 2 (mount ana).

(** Ben's only story. *)
Definition watching_b1 : Viewer := mount ben.

End Sample.

(** The rows behind that list: the [stories] query answers newest first,
    the [profiles] query in no particular order; Ana is signed in. *)
Module SampleFeed.
Import StoryViewer StoriesCarousel Sample.

Definition rows : list Story := [a3; a2; a1; b1].

Definition profiles : list Profile :=
  [ {| profile_user_id := "ben"; profile_username := "Ben";
       profile_avatar_url := None |};
    {| profile_user_id := "ana"; profile_username := "Ana";
       profile_avatar_url := None |} ].

(** The hour of the four sample timestamps. *)
Definition clock (t : string) : Z :=
  if bool_decide (t = "2025-12-07T09:00:00Z") then 9
  else if bool_decide (t = "2025-12-07T10:00:00Z") then 10
  else if bool_decide (t = "2025-12-07T11:00:00Z") then 11
  else 12.

End SampleFeed.

(** An AVIF picture as the story creator receives it, and the public URL
    of its upload: StoryCreator stores a file under
    [<user id>/stories/<Date.now()>.<extension of the file name>]. *)
Module SampleMedia.
Import MediaUtils.

Definition avifFile : File := {| type := "image/avif"; size := 204800 |}.

Definition avifUrl : string :=
  "https://abc.supabase.co/storage/v1/object/public/posts/6f1c2a9e-7b1d-4c1e-9a55-0d7e3b2f4a10/stories/1733570000000.avif".

Definition movieHostUrl : string := "https://my.movies.example/pic.jpg".

End SampleMedia.

(* ===================================================================== *)
(** * Properties of the media classifier                                  *)
(* ===================================================================== *)

Module MediaUtilsSpec.
Import MediaUtils.

Lemma append_nil (s : string) : "" +:+ s = s.
Proof. reflexivity. Qed.

Lemma append_cons (c : ascii) (s t : string) :
  String c s +:+ t = String c (s +:+ t).
Proof. reflexivity. Qed.

Lemma prefix_cons (c d : ascii) (pre s : string) :
  String.prefix (String c pre) (String d s) =
  if Ascii.ascii_dec c d then String.prefix pre s else false.
Proof. reflexivity. Qed.

Lemma prefix_iff (pre s : string) :
  String.prefix pre s = true <-> exists rest, s = pre +:+ rest.
Proof.
  revert s. induction pre as [|c pre IH]; intros s.
  - split; [intros _; by exists s | intros _; by destruct s].
  - destruct s as [|d s].
    + split; [done | by intros [rest ?]].
    + rewrite prefix_cons. destruct (Ascii.ascii_dec c d) as [->|Hne].
      * rewrite IH. split; intros [rest Hr]; exists rest.
        -- by rewrite append_cons, Hr.
        -- rewrite append_cons in Hr. congruence.
      * split; [done | intros [rest Hr]; rewrite append_cons in Hr; congruence].
Qed.

Lemma includes_nil (sub : string) :
  includes "" sub = String.prefix sub "" || false.
Proof. reflexivity. Qed.

Lemma includes_cons (c : ascii) (s sub : string) :
  includes (String c s) sub = String.prefix sub (String c s) || includes s sub.
Proof. reflexivity. Qed.

Lemma includes_iff (s sub : string) :
  includes s sub = true <-> exists pre post, s = pre +:+ sub +:+ post.
Proof.
  induction s as [|c s IH].
  - rewrite includes_nil, orb_false_r, prefix_iff. split.
    + intros [rest Hr]. by exists "", rest.
    + intros [pre [post Hp]]. destruct pre; [|done].
      by exists post.
  - rewrite includes_cons, orb_true_iff, prefix_iff, IH. split.
    + intros [[rest Hr]|[pre [post Hp]]].
      * by exists "", rest.
      * exists (String c pre), post. by rewrite append_cons, Hp.
    + intros [pre [post Hp]]. destruct pre as [|d pre].
      * left. by exists post.
      * right. exists pre, post. rewrite append_cons in Hp. congruence.
Qed.

Lemma isVideoFile_iff (file : File) :
  isVideoFile file = true <-> exists rest, type file = "video/" +:+ rest.
Proof. unfold isVideoFile, startsWith. apply prefix_iff. Qed.

Lemma isVideoUrl_iff (url : string) :
  isVideoUrl url = true <->
  exists ext pre post,
    In ext videoExtensions /\ toLowerCase url = pre +:+ ext +:+ post.
Proof.
  unfold isVideoUrl. rewrite existsb_exists. split.
  - intros [ext [Hin Hinc]]. apply includes_iff in Hinc as [pre [post Hp]].
    by exists ext, pre, post.
  - intros [ext [pre [post [Hin Hp]]]]. exists ext. split; [done|].
    apply includes_iff. by exists pre, post.
Qed.

Lemma classify_video (i : MediaInput) : classify i = video <-> isVideo i = true.
Proof. unfold classify. destruct (isVideo i); split; congruence. Qed.

(** What [classify] computes, on ASCII text: a local file is a video
    exactly when its MIME type starts with "video/"; a URL is a video
    exactly when its lower-cased text contains one of the six strings
    .mp4 .webm .mov .avi .mkv .m4v at any place. *)
Lemma classify_as_implemented (i : MediaInput) :
  (classify i = video \/ classify i = image) /\
  (classify i = video <->
     match i with
     | LocalFile file => exists rest, type file = "video/" +:+ rest
     | Url url =>
         exists ext pre post,
           In ext [".mp4"; ".webm"; ".mov"; ".avi"; ".mkv"; ".m4v"] /\
           toLowerCase url = pre +:+ ext +:+ post
     end).
Proof.
  split.
  - unfold classify. destruct (isVideo i); auto.
  - rewrite classify_video. destruct i as [file|url]; simpl.
    + apply isVideoFile_iff.
    + apply isVideoUrl_iff.
Qed.

(** C6. The URL test looks for the six strings anywhere in the URL, not
    for the extension of the file name.  An AVIF picture is an image for
    [isVideoFile] and passes [validateMediaFile] as an image, but the URL
    of its upload ends in .avif, which contains .avi, and is classified
    as a video; so is the URL of a JPEG on a host whose name contains
    .mov.  The file side and a URL that ends in a video extension are
    classified as the claim describes. *)
Theorem avif_upload_is_classified_as_video :
  isImageFile SampleMedia.avifFile = true /\
  valid (validateMediaFile SampleMedia.avifFile) = true /\
  classify (LocalFile SampleMedia.avifFile) = image /\
  classify (Url SampleMedia.avifUrl) = video /\
  classify (Url SampleMedia.movieHostUrl) = video /\
  classify (Url "https://abc.supabase.co/storage/v1/object/public/posts/u/stories/1.mp4") = video /\
  classify (Url "https://abc.supabase.co/storage/v1/object/public/posts/u/stories/1.jpg") = image.
Proof. repeat split; reflexivity. Qed.

Example mp4_upper : isVideoUrl "https://cdn.example/s/A1.MP4" = true.
Proof. reflexivity. Qed.

Example jpg_is_image : classify (Url "https://cdn.example/s/a1.jpg") = image.
Proof. reflexivity. Qed.

Example query_string : isVideoUrl "https://cdn.example/s/a1.webm?token=x" = true.
Proof. reflexivity. Qed.

Example extension_anywhere : classify (Url "https://cdn.example/a.mov.thumb.png") = video.
Proof. reflexivity. Qed.

Example mime_video : classify (LocalFile {| type := "video/mp4"; size := 10 |}) = video.
Proof. reflexivity. Qed.

Example mime_pdf : classify (LocalFile {| type := "application/pdf"; size := 10 |}) = image.
Proof. reflexivity. Qed.

End MediaUtilsSpec.

(* ===================================================================== *)
(** * Properties of the like reconciler                                   *)
(* ===================================================================== *)

Module LikeSpec.
Import StoryViewer.

Lemma likeState_eta (l : LikeState) :
  {| isLiked := isLiked l; count := count l |} = l.
Proof. by destruct l. Qed.

Lemma currentLike_story (v : Viewer) (cs : Story) :
  currentStory v = Some cs -> currentLike v = likeOf (likes v) (id cs).
Proof. intros H. unfold currentLike. by rewrite H. Qed.

Lemma likeOf_insert (m : gmap string LikeState) (k : string) (l : LikeState) :
  likeOf (<[k := l]> m) k = l.
Proof. unfold likeOf. by rewrite lookup_insert_eq. Qed.

Lemma likeOf_lookup (m : gmap string LikeState) (k : string) (l : LikeState) :
  m !! k = Some l -> likeOf m k = l.
Proof. intros H. unfold likeOf. by rewrite H. Qed.

(** The synchronous half of a click by a signed-in user: the optimistic
    entry and the request that is sent. *)
Lemma handleLikeBegin_signed_in (uid : string) (v : Viewer) (cs : Story) :
  currentStory v = Some cs ->
  exists v' p,
    handleLikeBegin (Some uid) v = Issued v' p /\
    currentStory v' = Some cs /\
    pendingStory p = cs /\
    storyLike p = likeOf (likes v) (id cs) /\
    request p = (if isLiked (likeOf (likes v) (id cs))
                 then DeleteLike uid (id cs) else InsertLike uid (id cs)) /\
    likes v' =
      <[id cs := {| isLiked := negb (isLiked (likeOf (likes v) (id cs)));
                    count := if isLiked (likeOf (likes v) (id cs))
                             then count (likeOf (likes v) (id cs)) - 1
                             else count (likeOf (likes v) (id cs)) + 1 |}]>
        (likes v).
Proof.
  intros Hcs. unfold handleLikeBegin. rewrite Hcs.
  destruct (isLiked (likeOf (likes v) (id cs))); eexists _, _;
    (split; [reflexivity|]); simpl; auto.
Qed.

(** C4. A click on the like button without a signed-in user raises the
    notice "Please sign in to like stories", sends no request and leaves
    the viewer, its like map included, as it was. *)
Theorem unauthenticated_like_rejected (remote : Request -> bool) (v : Viewer) :
  handleLikeBegin None v = Rejected "Please sign in to like stories" /\
  handleLike None remote v =
    {| viewer := v; toasts := ["Please sign in to like stories"];
       requests := [] |} /\
  likes (viewer (handleLike None remote v)) = likes v.
Proof. repeat split. Qed.

(** C3. When the write sent by a click fails, whichever of the insert and
    the delete it was, the like state of the story after the click is the
    one before it (and the like map is the same map when the story had an
    entry), the entries of other stories are untouched, and one failure
    toast is raised. *)
Theorem like_rollback_exact (uid : string) (remote : Request -> bool)
    (v : Viewer) (cs : Story) :
  currentStory v = Some cs ->
  remote (InsertLike uid (id cs)) = true ->
  remote (DeleteLike uid (id cs)) = true ->
  let o := handleLike (Some uid) remote v in
  currentLike (viewer o) = currentLike v /\
  (forall l, likes v !! id cs = Some l -> likes (viewer o) = likes v) /\
  (forall k, k <> id cs -> likes (viewer o) !! k = likes v !! k) /\
  requests o = [if isLiked (currentLike v)
                then DeleteLike uid (id cs) else InsertLike uid (id cs)] /\
  toasts o = [if isLiked (currentLike v)
              then "Failed to unlike story" else "Failed to like story"].
Proof.
  intros Hcs Hins Hdel o. subst o.
  rewrite (currentLike_story v cs Hcs).
  destruct (handleLikeBegin_signed_in uid v cs Hcs)
    as (v' & p & Hb & Hcs' & Hp & Hsl & Hreq & Hl).
  unfold handleLike. rewrite Hb. unfold handleLikeResume.
  rewrite Hreq, Hsl, Hp.
  destruct (isLiked (likeOf (likes v) (id cs))) eqn:Hliked;
    rewrite ?Hins, ?Hdel; cbn [viewer toasts requests];
    (split; [|split; [|split; [|done]]]).
  - rewrite (currentLike_story _ cs) by done. cbn [setLikes likes].
    rewrite likeOf_insert, <- Hliked. apply likeState_eta.
  - intros l Hlk. cbn [setLikes likes]. rewrite Hl, insert_insert_eq.
    apply insert_id. rewrite Hlk. f_equal.
    rewrite (likeOf_lookup _ _ _ Hlk) in *. rewrite <- Hliked.
    symmetry. apply likeState_eta.
  - intros k Hk. cbn [setLikes likes]. rewrite Hl.
    by rewrite !lookup_insert_ne.
  - rewrite (currentLike_story _ cs) by done. cbn [setLikes likes].
    rewrite likeOf_insert, <- Hliked. apply likeState_eta.
  - intros l Hlk. cbn [setLikes likes]. rewrite Hl, insert_insert_eq.
    apply insert_id. rewrite Hlk. f_equal.
    rewrite (likeOf_lookup _ _ _ Hlk) in *. rewrite <- Hliked.
    symmetry. apply likeState_eta.
  - intros k Hk. cbn [setLikes likes]. rewrite Hl.
    by rewrite !lookup_insert_ne.
Qed.

Lemma like_rollback_exact_witness :
  currentLike (viewer (handleLike (Some "zoe") fails Sample.watching_a1)) =
    currentLike Sample.watching_a1 /\
  toasts (handleLike (Some "zoe") fails Sample.watching_a1) =
    ["Failed to like story"].
Proof.
  pose proof (like_rollback_exact "zoe" fails Sample.watching_a1 Sample.a1
                eq_refl eq_refl eq_refl) as H.
  cbv zeta in H. destruct H as (Hlike & _ & _ & _ & Htoast).
  split; [exact Hlike | exact Htoast].
Defined.

(** The scenario of the design document: four likes, the viewer likes,
    the insert fails. *)
Example like_4_to_5_rolled_back :
  (exists v' p, handleLikeBegin (Some "zoe") Sample.watching_a1 = Issued v' p /\
                currentLike v' = {| isLiked := true; count := 5 |}) /\
  currentLike (viewer (handleLike (Some "zoe") fails Sample.watching_a1)) =
    {| isLiked := false; count := 4 |}.
Proof.
  split.
  - eexists _, _. split; [reflexivity|]. vm_compute. reflexivity.
  - vm_compute. reflexivity.
Qed.

(** One successful click flips [isLiked] and moves the count by one. *)
Lemma handleLike_success (uid : string) (v : Viewer) (cs : Story) :
  currentStory v = Some cs ->
  let o := handleLike (Some uid) succeeds v in
  currentStory (viewer o) = Some cs /\
  likes (viewer o) =
    <[id cs := {| isLiked := negb (isLiked (currentLike v));
                  count := if isLiked (currentLike v)
                           then count (currentLike v) - 1
                           else count (currentLike v) + 1 |}]> (likes v) /\
  toasts o = [] /\
  requests o = [if isLiked (currentLike v)
                then DeleteLike uid (id cs) else InsertLike uid (id cs)].
Proof.
  intros Hcs o. subst o. rewrite (currentLike_story v cs Hcs).
  destruct (handleLikeBegin_signed_in uid v cs Hcs)
    as (v' & p & Hb & Hcs' & Hp & Hsl & Hreq & Hl).
  unfold handleLike. rewrite Hb. unfold handleLikeResume, succeeds.
  cbn [viewer toasts requests]. by rewrite Hreq.
Qed.

(** C8. Two clicks in a row, both writes succeeding, bring [isLiked] and
    the count of the story back to what they were before the first click;
    the first click alone flips [isLiked]. *)
Theorem like_toggle_twice (uid : string) (v : Viewer) (cs : Story) :
  currentStory v = Some cs ->
  let once := viewer (handleLike (Some uid) succeeds v) in
  let twice := viewer (handleLike (Some uid) succeeds once) in
  isLiked (currentLike once) = negb (isLiked (currentLike v)) /\
  isLiked (currentLike twice) = isLiked (currentLike v) /\
  count (currentLike twice) = count (currentLike v) /\
  (forall l, likes v !! id cs = Some l -> likes twice = likes v).
Proof.
  intros Hcs once twice.
  destruct (handleLike_success uid v cs Hcs) as (Hcs1 & Hl1 & _ & _).
  fold once in Hcs1, Hl1.
  destruct (handleLike_success uid once cs Hcs1) as (Hcs2 & Hl2 & _ & _).
  fold twice in Hcs2, Hl2.
  assert (H1 : currentLike once =
               {| isLiked := negb (isLiked (currentLike v));
                  count := if isLiked (currentLike v)
                           then count (currentLike v) - 1
                           else count (currentLike v) + 1 |}).
  { rewrite (currentLike_story once cs Hcs1), Hl1. apply likeOf_insert. }
  assert (H2 : currentLike twice = currentLike v).
  { rewrite (currentLike_story twice cs Hcs2), Hl2, likeOf_insert, H1.
    destruct (currentLike v) as [b c]. cbn [isLiked count].
    destruct b; cbn [negb]; f_equal; lia. }
  split; [by rewrite H1|]. split; [by rewrite H2|]. split; [by rewrite H2|].
  intros l Hlk. rewrite Hl2, Hl1, insert_insert_eq. apply insert_id.
  rewrite Hlk. f_equal. rewrite H1.
  rewrite (currentLike_story v cs Hcs), (likeOf_lookup _ _ _ Hlk).
  destruct l as [b c]. cbn [isLiked count].
  destruct b; cbn [negb]; f_equal; lia.
Qed.

Lemma like_toggle_twice_witness :
  isLiked (currentLike (viewer (handleLike (Some "zoe") succeeds
             (viewer (handleLike (Some "zoe") succeeds Sample.watching_a1))))) =
    isLiked (currentLike Sample.watching_a1) /\
  count (currentLike (viewer (handleLike (Some "zoe") succeeds
           (viewer (handleLike (Some "zoe") succeeds Sample.watching_a1))))) =
    count (currentLike Sample.watching_a1).
Proof.
  pose proof (like_toggle_twice "zoe" Sample.watching_a1 Sample.a1 eq_refl) as H.
  cbv zeta in H. destruct H as (_ & Hliked & Hcount & _).
  split; [exact Hliked | exact Hcount].
Defined.

(** C10. A story with no entry in the like map is read as not liked with
    zero likes; a click on it by a signed-in user therefore sends an
    insert, whatever the table holds, and writes the entry (liked, 1),
    which is also the entry after the write succeeded. *)
Theorem unfetched_like_defaults (uid : string) (remote : Request -> bool)
    (v : Viewer) (cs : Story) :
  currentStory v = Some cs ->
  likes v !! id cs = None ->
  currentLike v = {| isLiked := false; count := 0 |} /\
  (exists v' p,
     handleLikeBegin (Some uid) v = Issued v' p /\
     request p = InsertLike uid (id cs) /\
     likes v' !! id cs = Some {| isLiked := true; count := 1 |}) /\
  requests (handleLike (Some uid) remote v) = [InsertLike uid (id cs)] /\
  likes (viewer (handleLike (Some uid) succeeds v)) !! id cs =
    Some {| isLiked := true; count := 1 |}.
Proof.
  intros Hcs Hnone.
  assert (Hd : likeOf (likes v) (id cs) = defaultLike).
  { unfold likeOf. by rewrite Hnone. }
  destruct (handleLikeBegin_signed_in uid v cs Hcs)
    as (v' & p & Hb & Hcs' & Hp & Hsl & Hreq & Hl).
  rewrite Hd in Hreq, Hl. cbn in Hreq, Hl.
  split; [by rewrite (currentLike_story v cs Hcs)|].
  split.
  { exists v', p. split; [done|]. split; [done|].
    rewrite Hl. apply lookup_insert_eq. }
  split.
  { unfold handleLike. rewrite Hb.
    destruct (handleLikeResume p (remote (request p)) v') as [v'' ts].
    cbn [requests]. by rewrite Hreq. }
  destruct (handleLike_success uid v cs Hcs) as (_ & Hl1 & _ & _).
  rewrite Hl1, (currentLike_story v cs Hcs), Hd. apply lookup_insert_eq.
Qed.

Lemma unfetched_like_defaults_witness :
  currentLike (mount Sample.ana) = {| isLiked := false; count := 0 |} /\
  requests (handleLike (Some "zoe") fails (mount Sample.ana)) =
    [InsertLike "zoe" "a1"].
Proof.
  pose proof (unfetched_like_defaults "zoe" fails (mount Sample.ana) Sample.a1
                eq_refl eq_refl) as H.
  destruct H as (Hdefault & _ & Hreq & _).
  split; [exact Hdefault | exact Hreq].
Defined.

(** The optimistic entry of such a click does not survive a failed
    insert: the rollback writes (not liked, 0). *)
Lemma unfetched_like_failed_insert (uid : string) (v : Viewer) (cs : Story) :
  currentStory v = Some cs ->
  likes v !! id cs = None ->
  likes (viewer (handleLike (Some uid) fails v)) !! id cs =
    Some {| isLiked := false; count := 0 |}.
Proof.
  intros Hcs Hnone.
  assert (Hd : likeOf (likes v) (id cs) = defaultLike).
  { unfold likeOf. by rewrite Hnone. }
  destruct (handleLikeBegin_signed_in uid v cs Hcs)
    as (v' & p & Hb & Hcs' & Hp & Hsl & Hreq & Hl).
  unfold handleLike. rewrite Hb. unfold handleLikeResume, fails.
  rewrite Hsl, Hp, Hd. cbn. apply lookup_insert_eq.
Qed.

End LikeSpec.

(* ===================================================================== *)
(** * Properties of the playback controller                               *)
(* ===================================================================== *)

Module PlaybackSpec.
Import StoryViewer.

(** ** Arrays *)

Lemma at_lookup {A} (arr : list A) (n : nat) : at_ arr (Z.of_nat n) = arr !! n.
Proof.
  unfold at_. destruct (Z.ltb_spec (Z.of_nat n) 0); [lia|].
  by rewrite Nat2Z.id.
Qed.

Lemma at_negative {A} (arr : list A) (i : Z) : i < 0 -> at_ arr i = None.
Proof. intros H. unfold at_. destruct (Z.ltb_spec i 0); [done | lia]. Qed.

Lemma at_is_Some {A} (arr : list A) (i : Z) :
  0 <= i < length_ arr -> is_Some (at_ arr i).
Proof.
  intros H. unfold at_, length_ in *. destruct (Z.ltb_spec i 0); [lia|].
  apply lookup_lt_is_Some. lia.
Qed.

Lemma at_Some_range {A} (arr : list A) (i : Z) (x : A) :
  at_ arr i = Some x -> 0 <= i < length_ arr.
Proof.
  unfold at_, length_. destruct (Z.ltb_spec i 0) as [|Hi]; [done|].
  intros Hx%lookup_lt_Some. lia.
Qed.

Lemma findIndexFrom_unique (u : UserWithStories) (arr : list UserWithStories)
    (i : Z) (n : nat) :
  NoDup (user_id <$> arr) ->
  arr !! n = Some u ->
  findIndexFrom (fun x => sameUser x u) i arr = i + Z.of_nat n.
Proof.
  revert i n. induction arr as [|x arr IH]; intros i n Hnd Hn; [done|].
  rewrite fmap_cons in Hnd. apply NoDup_cons in Hnd as [Hx Hnd].
  destruct n as [|n]; simpl in *.
  - injection Hn as ->. unfold sameUser. rewrite bool_decide_eq_true_2 by done. lia.
  - unfold sameUser at 1. rewrite bool_decide_eq_false_2.
    + rewrite (IH (i + 1) n Hnd Hn). lia.
    + intros Heq. apply Hx. rewrite Heq.
      apply list_elem_of_fmap. exists u. split; [done|].
      by apply list_elem_of_lookup_2 with n.
Qed.

Lemma findIndexFrom_range {A} (p : A -> bool) (arr : list A) (i : Z) :
  0 <= i ->
  findIndexFrom p i arr = -1 \/
  i <= findIndexFrom p i arr < i + length_ arr.
Proof.
  revert i. unfold length_.
  induction arr as [|x arr IH]; intros i Hi; simpl; [by left|].
  destruct (p x); [right; lia|].
  destruct (IH (i + 1)) as [->|H]; [lia | by left | right; lia].
Qed.

(** The user before the current one exists whenever [hasPrevUser]. *)
Lemma prevUser_defined (allUsersStories : list UserWithStories) (v : Viewer) :
  hasPrevUser allUsersStories v = true ->
  is_Some (at_ allUsersStories (currentUserIndex allUsersStories v - 1)).
Proof.
  unfold hasPrevUser, currentUserIndex, findIndex. intros H.
  apply Z.ltb_lt in H. apply at_is_Some.
  destruct (findIndexFrom_range (fun u => sameUser u (userStories v))
              allUsersStories 0) as [Hm|Hr]; lia.
Qed.

(** ** The cursor *)

Lemma renders_iff (v : Viewer) : renders v = true <-> indexValid v.
Proof.
  unfold renders, currentStory, indexValid. split.
  - destruct (at_ _ _) eqn:E; [|done]. intros _. by eapply at_Some_range.
  - intros H. by destruct (at_is_Some _ _ H) as [x ->].
Qed.

Lemma render_valid (v : Viewer) : indexValid v -> render v = Open v.
Proof. intros H%renders_iff. unfold render. by rewrite H. Qed.

Lemma render_invalid (v : Viewer) : ~ indexValid v -> render v = Crashed.
Proof.
  intros H. unfold render. destruct (renders v) eqn:E; [|done].
  by apply renders_iff in E.
Qed.

Lemma sameUser_refl (us : UserWithStories) : sameUser us us = true.
Proof. unfold sameUser. by apply bool_decide_eq_true_2. Qed.

(** ** The image timer *)

Lemma increment_is_1 : increment = 1.
Proof. reflexivity. Qed.

(** The integer [increment] is the value of the source expression
    [(interval / duration) * 100] over the rationals. *)
Lemma increment_exact :
  Qeq (inject_Z increment)
      ((inject_Z interval / inject_Z duration) * inject_Z 100)%Q.
Proof. reflexivity. Qed.

Lemma goToNextStory_progress (allUsersStories : list UserWithStories)
    (v : Viewer) :
  mapOpen (setProgress 0) (goToNextStory allUsersStories v) =
  goToNextStory allUsersStories v.
Proof.
  unfold goToNextStory, onNavigateUser, onClose.
  repeat case_match; reflexivity.
Qed.

Lemma Advance_progress (allUsersStories : list UserWithStories)
    (v v' : Viewer) :
  Advance allUsersStories v = Open v' -> progress v' = 0.
Proof.
  unfold Advance, goToNextStory, onNavigateUser, onClose, commit, render,
    resetWhenUserChanges.
  repeat case_match; intros; simplify_eq; reflexivity.
Qed.

Lemma tick_not_running (allUsersStories : list UserWithStories) (v : Viewer) :
  timerRunning v = false -> tick allUsersStories v = Open v.
Proof. intros H. unfold tick. by rewrite H. Qed.

Lemma tick_below (allUsersStories : list UserWithStories) (v : Viewer) :
  timerRunning v = true -> progress v < 100 ->
  tick allUsersStories v = Open (setProgress (progress v + increment) v).
Proof.
  intros H Hp. unfold tick. rewrite H.
  by destruct (Z.leb_spec 100 (progress v)); [lia|].
Qed.

Lemma tick_full (allUsersStories : list UserWithStories) (v : Viewer) :
  timerRunning v = true -> 100 <= progress v ->
  tick allUsersStories v = Advance allUsersStories v.
Proof.
  intros H Hp. unfold tick. rewrite H.
  destruct (Z.leb_spec 100 (progress v)); [|lia].
  by rewrite goToNextStory_progress.
Qed.

Lemma setProgress_id (v : Viewer) : setProgress (progress v) v = v.
Proof. by destruct v. Qed.

Lemma ticks_count (allUsersStories : list UserWithStories) (v : Viewer)
    (n : nat) :
  timerRunning v = true -> progress v = 0 -> (n <= 100)%nat ->
  Nat.iter n (onScreen (tick allUsersStories)) (Open v) =
    Open (setProgress (Z.of_nat n * increment) v).
Proof.
  intros Hrun Hp. induction n as [|n IH]; intros Hn.
  - replace (Z.of_nat 0 * increment) with (progress v) by (by rewrite Hp).
    by rewrite setProgress_id.
  - change (Nat.iter (S n) ?f ?x) with (f (Nat.iter n f x)).
    rewrite IH by lia. cbn [onScreen].
    rewrite tick_below; [|done|rewrite increment_is_1; simpl; lia].
    cbn [setProgress progress userStories currentIndex isPaused likes isAnimating].
    rewrite increment_is_1.
    replace (Z.of_nat n * 1 + 1) with (Z.of_nat (S n) * 1) by lia.
    reflexivity.
Qed.

(** C5. While the story on screen is an image and the viewer is not
    paused, each firing of the 50 ms interval adds the same increment to
    the progress, which started at 0 is below 100 before 5000 ms have
    passed and is 100 at 5000 ms; the firing that finds the progress at
    100 performs the Advance transition, and the progress is 0
    afterwards. *)
Theorem image_timer (allUsersStories : list UserWithStories) (v : Viewer) :
  timerRunning v = true ->
  progress v = 0 ->
  (forall n, (n <= 100)%nat ->
     Nat.iter n (onScreen (tick allUsersStories)) (Open v) =
       Open (setProgress (Z.of_nat n * increment) v)) /\
  (forall ms, 0 <= ms < duration ->
     exists p, elapse allUsersStories ms (Open v) = Open (setProgress p v) /\
               0 <= p < 100) /\
  elapse allUsersStories duration (Open v) = Open (setProgress 100 v) /\
  tick allUsersStories (setProgress 100 v) =
    Advance allUsersStories (setProgress 100 v) /\
  (forall v', tick allUsersStories (setProgress 100 v) = Open v' ->
     progress v' = 0).
Proof.
  intros Hrun Hp. split; [|split; [|split; [|split]]].
  - intros n Hn. by apply ticks_count.
  - intros ms Hms. unfold duration in Hms. unfold elapse, interval.
    assert (Hq : 0 <= ms / 50 < 100).
    { split; [apply Z.div_pos; lia | apply Z.div_lt_upper_bound; lia]. }
    exists (Z.of_nat (Z.to_nat (ms / 50)) * increment). split.
    + apply ticks_count; [done|done|lia].
    + rewrite increment_is_1. lia.
  - unfold elapse. by rewrite (ticks_count _ _ _ Hrun Hp).
  - by apply tick_full.
  - intros v' Hv'. rewrite tick_full in Hv' by done.
    by eapply Advance_progress.
Qed.

Section WellFormedList.

Variable allUsersStories : list UserWithStories.
Hypothesis Hwf : WellFormed allUsersStories.

Lemma stories_nonempty (u : nat) (us : UserWithStories) :
  allUsersStories !! u = Some us -> 0 < length_ (stories us).
Proof.
  intros Hu. destruct Hwf as [_ Hne].
  rewrite Forall_lookup in Hne. specialize (Hne u us Hu).
  unfold length_. destruct (stories us); [done | simpl; lia].
Qed.

Lemma sameUser_distinct (i j : nat) (a b : UserWithStories) :
  allUsersStories !! i = Some a -> allUsersStories !! j = Some b ->
  i <> j -> sameUser a b = false.
Proof.
  intros Hi Hj Hij. destruct Hwf as [Hnd _].
  unfold sameUser. apply bool_decide_eq_false_2. intros Heq. apply Hij.
  eapply NoDup_lookup; [exact Hnd | |];
    rewrite list_lookup_fmap; [by rewrite Hi | by rewrite Hj, Heq].
Qed.

Lemma currentUserIndex_located (v : Viewer) (u : nat) :
  located allUsersStories v u ->
  currentUserIndex allUsersStories v = Z.of_nat u.
Proof.
  intros Hu. unfold currentUserIndex, findIndex.
  destruct Hwf as [Hnd _]. by rewrite (findIndexFrom_unique _ _ 0 u Hnd Hu).
Qed.

Lemma located_lt (v : Viewer) (u : nat) :
  located allUsersStories v u -> (u < length allUsersStories)%nat.
Proof. apply lookup_lt_Some. Qed.

(** *** Advance, branch by branch *)

Lemma Advance_within (v : Viewer) :
  0 <= currentIndex v ->
  currentIndex v + 1 < length_ (stories (userStories v)) ->
  Advance allUsersStories v =
    Open (setProgress 0 (setCurrentIndex (currentIndex v + 1) v)).
Proof.
  intros H0 H1. unfold Advance, goToNextStory.
  destruct (Z.ltb_spec (currentIndex v) (length_ (stories (userStories v)) - 1));
    [|lia].
  unfold commit. rewrite (proj2 (renders_iff _)) by (unfold indexValid; simpl; lia).
  unfold resetWhenUserChanges. cbn [userStories setProgress setCurrentIndex].
  rewrite sameUser_refl. apply render_valid. unfold indexValid; simpl; lia.
Qed.

Lemma goToNextStory_next_user (v : Viewer) (u : nat) (next : UserWithStories) :
  located allUsersStories v u ->
  ~ currentIndex v + 1 < length_ (stories (userStories v)) ->
  allUsersStories !! S u = Some next ->
  goToNextStory allUsersStories v = Open (moveTo next 0 v).
Proof.
  intros Hu Hlast Hnext. unfold goToNextStory.
  destruct (Z.ltb_spec (currentIndex v) (length_ (stories (userStories v)) - 1));
    [lia|].
  unfold hasNextUser. rewrite (currentUserIndex_located v u Hu).
  apply lookup_lt_Some in Hnext as Hlt. unfold length_.
  destruct (Z.ltb_spec (Z.of_nat u) (Z.of_nat (length allUsersStories) - 1));
    [|lia].
  replace (Z.of_nat u + 1) with (Z.of_nat (S u)) by lia.
  by rewrite at_lookup, Hnext.
Qed.

Lemma Advance_next_user (v : Viewer) (u : nat) (next : UserWithStories) :
  located allUsersStories v u ->
  ~ currentIndex v + 1 < length_ (stories (userStories v)) ->
  allUsersStories !! S u = Some next ->
  Advance allUsersStories v = Open (moveTo next 0 v).
Proof.
  intros Hu Hlast Hnext. unfold Advance.
  rewrite (goToNextStory_next_user v u next Hu Hlast Hnext).
  pose proof (stories_nonempty (S u) next Hnext) as Hne.
  assert (Hv : indexValid (moveTo next 0 v)) by (unfold indexValid; simpl; lia).
  unfold commit. rewrite (proj2 (renders_iff _) Hv).
  unfold resetWhenUserChanges.
  destruct (sameUser _ _); apply render_valid; exact Hv.
Qed.

Lemma Advance_last (v : Viewer) (u : nat) :
  located allUsersStories v u ->
  ~ currentIndex v + 1 < length_ (stories (userStories v)) ->
  allUsersStories !! S u = None ->
  Advance allUsersStories v = Closed.
Proof.
  intros Hu Hlast Hnone. unfold Advance, goToNextStory.
  destruct (Z.ltb_spec (currentIndex v) (length_ (stories (userStories v)) - 1));
    [lia|].
  unfold hasNextUser. rewrite (currentUserIndex_located v u Hu).
  apply lookup_ge_None in Hnone. unfold length_.
  destruct (Z.ltb_spec (Z.of_nat u) (Z.of_nat (length allUsersStories) - 1));
    [lia|done].
Qed.

(** C1. From story [s] of the [u]-th sequence: when [s + 1] is below
    the number of stories of that sequence, Advance moves to story [s + 1]
    of the same sequence; otherwise, when the list has a sequence at
    [u + 1], Advance moves to its story 0; otherwise Advance closes the
    viewer.  In the first two cases the progress is 0 afterwards. *)
Theorem advance_transition (v : Viewer) (u : nat) (s : Z) :
  located allUsersStories v u ->
  currentIndex v = s ->
  0 <= s < length_ (stories (userStories v)) ->
  position allUsersStories (Open v) = Some (Z.of_nat u, s) /\
  (s + 1 < length_ (stories (userStories v)) ->
     Advance allUsersStories v = Open (setProgress 0 (setCurrentIndex (s + 1) v)) /\
     position allUsersStories (Advance allUsersStories v) =
       Some (Z.of_nat u, s + 1)) /\
  (~ s + 1 < length_ (stories (userStories v)) ->
     forall next, allUsersStories !! S u = Some next ->
       Advance allUsersStories v = Open (moveTo next 0 v) /\
       position allUsersStories (Advance allUsersStories v) =
         Some (Z.of_nat u + 1, 0)) /\
  (~ s + 1 < length_ (stories (userStories v)) ->
     allUsersStories !! S u = None ->
     Advance allUsersStories v = Closed).
Proof.
  intros Hu <- Hs.
  split; [|split; [|split]].
  - unfold position. by rewrite (currentUserIndex_located v u Hu).
  - intros Hlt. rewrite Advance_within by lia. split; [done|].
    unfold position. f_equal. f_equal.
    by apply (currentUserIndex_located _ u).
  - intros Hlast next Hnext.
    rewrite (Advance_next_user v u next Hu Hlast Hnext). split; [done|].
    unfold position.
    rewrite (currentUserIndex_located (moveTo next 0 v) (S u) Hnext).
    do 2 f_equal. lia.
  - intros Hlast Hnone. by apply (Advance_last v u).
Qed.

(** *** Counting the stories still to be shown *)

Local Abbreviation remaining := (StoryViewer.remaining allUsersStories).
Local Abbreviation onList := (StoryViewer.onList allUsersStories).

Lemma totalStoryCount_cons (us : UserWithStories) (l : list UserWithStories) :
  totalStoryCount (us :: l) = (length (stories us) + totalStoryCount l)%nat.
Proof. reflexivity. Qed.

Lemma remaining_positive (v : Viewer) : onList (Open v) -> (0 < remaining (Open v))%nat.
Proof.
  intros [_ Hv]. unfold indexValid, length_ in Hv. simpl. lia.
Qed.

Lemma Advance_counts_down (v : Viewer) :
  onList (Open v) ->
  onList (Advance allUsersStories v) /\
  S (remaining (Advance allUsersStories v)) = remaining (Open v).
Proof.
  intros [[u Hu] Hv]. unfold indexValid in Hv.
  destruct (decide (currentIndex v + 1 < length_ (stories (userStories v))))
    as [Hlt|Hlast].
  - rewrite Advance_within by lia. split.
    + split; [by exists u | unfold indexValid; simpl; lia].
    + unfold length_ in *. simpl.
      change (currentUserIndex allUsersStories
                (setProgress 0 (setCurrentIndex (currentIndex v + 1) v)))
        with (currentUserIndex allUsersStories v).
      lia.
  - destruct (allUsersStories !! S u) as [next|] eqn:Hnext.
    + rewrite (Advance_next_user v u next Hu Hlast Hnext).
      pose proof (stories_nonempty (S u) next Hnext) as Hne.
      split.
      * split; [by exists (S u) | unfold indexValid; simpl; lia].
      * assert (Hnext' : located allUsersStories (moveTo next 0 v) (S u))
          by exact Hnext.
        unfold remaining.
        rewrite (currentUserIndex_located _ _ Hnext'),
                (currentUserIndex_located _ _ Hu), !Nat2Z.id.
        rewrite (drop_S _ _ _ Hnext), totalStoryCount_cons.
        unfold length_ in *. simpl. lia.
    + rewrite (Advance_last v u Hu Hlast Hnext). split; [done|].
      unfold remaining.
      rewrite (currentUserIndex_located _ _ Hu), Nat2Z.id.
      rewrite drop_ge by (apply lookup_ge_None in Hnext; lia).
      unfold length_, totalStoryCount in *. simpl. lia.
Qed.

Lemma iter_Advance_closed (n : nat) :
  Nat.iter n (onScreen (Advance allUsersStories)) Closed = Closed.
Proof. induction n as [|n IH]; [done|]. simpl. by rewrite IH. Qed.

Lemma iter_Advance (n : nat) (s : Screen) :
  onList s ->
  onList (Nat.iter n (onScreen (Advance allUsersStories)) s) /\
  remaining (Nat.iter n (onScreen (Advance allUsersStories)) s) =
    (remaining s - n)%nat.
Proof.
  intros Hs. induction n as [|n [IHl IHr]].
  - simpl. split; [done|lia].
  - set (f := onScreen (Advance allUsersStories)) in *.
    change (Nat.iter (S n) f s) with (f (Nat.iter n f s)).
    destruct (Nat.iter n f s) as [|v|]; subst f.
    + change (onScreen (Advance allUsersStories) Closed) with Closed.
      split; [done|]. change (remaining Closed) with 0%nat in *. lia.
    + change (onScreen (Advance allUsersStories) (Open v))
        with (Advance allUsersStories v).
      destruct (Advance_counts_down v IHl) as [Hl Hr]. split; [done|lia].
    + destruct IHl.
Qed.

Lemma selectUser_closed (u : nat) (us : UserWithStories) :
  allUsersStories !! u = Some us ->
  selectUser us Closed = Open (mount us).
Proof.
  intros Hu. unfold selectUser. apply render_valid.
  pose proof (stories_nonempty u us Hu). unfold indexValid. simpl. lia.
Qed.

Lemma onList_mount (u : nat) (us : UserWithStories) :
  allUsersStories !! u = Some us -> onList (Open (mount us)).
Proof.
  intros Hu. split; [by exists u|].
  pose proof (stories_nonempty u us Hu). unfold indexValid. simpl. lia.
Qed.

(** C7. On a list with a first sequence, the viewer opened on story 0 of
    sequence 0 is closed after exactly as many Advances as the list has
    stories, and is still open after any smaller number of them. *)
Theorem advance_terminates (first : UserWithStories) :
  allUsersStories !! 0%nat = Some first ->
  position allUsersStories (selectUser first Closed) = Some (0, 0) /\
  Nat.iter (totalStoryCount allUsersStories)
    (onScreen (Advance allUsersStories)) (selectUser first Closed) = Closed /\
  (forall k, (k < totalStoryCount allUsersStories)%nat ->
     exists v, Nat.iter k (onScreen (Advance allUsersStories))
                 (selectUser first Closed) = Open v).
Proof.
  intros Hfirst. rewrite (selectUser_closed 0 first Hfirst).
  pose proof (onList_mount 0 first Hfirst) as Hon.
  assert (Hloc : located allUsersStories (mount first) 0) by exact Hfirst.
  assert (Hrem : remaining (Open (mount first)) = totalStoryCount allUsersStories).
  { unfold StoryViewer.remaining.
    rewrite (currentUserIndex_located _ _ Hloc).
    destruct allUsersStories as [|x rest]; [done|].
    injection Hfirst as ->. simpl. rewrite totalStoryCount_cons, drop_0. lia. }
  split; [|split].
  - unfold position. by rewrite (currentUserIndex_located _ _ Hloc).
  - destruct (iter_Advance (totalStoryCount allUsersStories) _ Hon) as [Hl Hr].
    rewrite Hrem, Nat.sub_diag in Hr.
    destruct (Nat.iter _ _ _) as [|v|]; [done| |done].
    pose proof (remaining_positive v Hl). lia.
  - intros k Hk. destruct (iter_Advance k _ Hon) as [Hl Hr].
    rewrite Hrem in Hr.
    destruct (Nat.iter _ _ _) as [|v|]; [|by exists v|done].
    change (remaining Closed) with 0%nat in Hr. lia.
Qed.

(** *** Retreat, branch by branch *)

Lemma Retreat_within (v : Viewer) :
  0 < currentIndex v ->
  currentIndex v - 1 < length_ (stories (userStories v)) ->
  Retreat allUsersStories v =
    Open (setProgress 0 (setCurrentIndex (currentIndex v - 1) v)).
Proof.
  intros H0 H1. unfold Retreat, goToPrevStory.
  destruct (Z.ltb_spec 0 (currentIndex v)); [|lia].
  unfold commit. rewrite (proj2 (renders_iff _)) by (unfold indexValid; simpl; lia).
  unfold resetWhenUserChanges. cbn [userStories setProgress setCurrentIndex].
  rewrite sameUser_refl. apply render_valid. unfold indexValid; simpl; lia.
Qed.

(** At the first story of the first sequence the handler requests
    nothing. *)
Lemma Retreat_first (v : Viewer) :
  located allUsersStories v 0 ->
  currentIndex v = 0 ->
  Retreat allUsersStories v = Open v.
Proof.
  intros Hu Hs. unfold Retreat, goToPrevStory. rewrite Hs.
  destruct (Z.ltb_spec 0 0); [lia|].
  unfold hasPrevUser. rewrite (currentUserIndex_located v 0 Hu).
  destruct (Z.ltb_spec 0 (Z.of_nat 0)); [lia|].
  pose proof (stories_nonempty 0 _ Hu) as Hne.
  assert (Hv : indexValid v) by (unfold indexValid; lia).
  unfold commit. rewrite (proj2 (renders_iff _) Hv).
  unfold resetWhenUserChanges. rewrite sameUser_refl. by apply render_valid.
Qed.

(** At the first story of a later sequence the handler requests the last
    story of the sequence before it... *)
Lemma goToPrevStory_prev_user (v : Viewer) (u : nat) (prevUser : UserWithStories) :
  located allUsersStories v (S u) ->
  currentIndex v <= 0 ->
  allUsersStories !! u = Some prevUser ->
  goToPrevStory allUsersStories v =
    Open (moveTo prevUser (length_ (stories prevUser) - 1) v).
Proof.
  intros Hu Hs Hprev. unfold goToPrevStory.
  destruct (Z.ltb_spec 0 (currentIndex v)); [lia|].
  unfold hasPrevUser. rewrite (currentUserIndex_located v (S u) Hu).
  destruct (Z.ltb_spec 0 (Z.of_nat (S u))); [|lia].
  replace (Z.of_nat (S u) - 1) with (Z.of_nat u) by lia.
  by rewrite at_lookup, Hprev.
Qed.

(** ... and the reset effect, which runs because the user changed, puts
    the cursor on its story 0. *)
Lemma Retreat_prev_user (v : Viewer) (u : nat) (prevUser : UserWithStories) :
  located allUsersStories v (S u) ->
  currentIndex v <= 0 ->
  allUsersStories !! u = Some prevUser ->
  Retreat allUsersStories v = Open (moveTo prevUser 0 v).
Proof.
  intros Hu Hs Hprev. unfold Retreat.
  rewrite (goToPrevStory_prev_user v u prevUser Hu Hs Hprev).
  pose proof (stories_nonempty u prevUser Hprev) as Hne.
  unfold commit.
  rewrite (proj2 (renders_iff _)) by (unfold indexValid; simpl; lia).
  unfold resetWhenUserChanges. cbn [userStories moveTo setProgress setCurrentIndex setUserStories].
  rewrite (sameUser_distinct (S u) u _ _ Hu Hprev) by lia.
  apply render_valid. unfold indexValid; simpl; lia.
Qed.

(** *** What every transition preserves *)

Lemma Advance_invariant (v : Viewer) :
  onList (Open v) ->
  onList (Advance allUsersStories v) /\ screenValid (Advance allUsersStories v).
Proof.
  intros Hon. destruct (Advance_counts_down v Hon) as [Hl _].
  split; [done|].
  destruct (Advance allUsersStories v) as [|v'|] eqn:E; [done| |done].
  destruct Hl as [_ Hv']. split; [done|].
  rewrite (Advance_progress _ _ _ E). lia.
Qed.

Lemma Retreat_invariant (v : Viewer) :
  onList (Open v) -> screenValid (Open v) ->
  onList (Retreat allUsersStories v) /\ screenValid (Retreat allUsersStories v).
Proof.
  intros [[u Hu] Hv] [_ Hp]. unfold indexValid in Hv.
  destruct (decide (0 < currentIndex v)) as [Hpos|Hzero].
  - rewrite Retreat_within by lia.
    repeat split; try (by exists u); simpl; lia.
  - destruct u as [|u].
    + rewrite (Retreat_first v Hu) by lia.
      repeat split; try (by exists 0%nat); lia.
    + destruct (lookup_lt_is_Some_2 allUsersStories u) as [prevUser Hprev].
      { apply lookup_lt_Some in Hu. lia. }
      rewrite (Retreat_prev_user v u prevUser Hu) by (done || lia).
      pose proof (stories_nonempty u prevUser Hprev).
      repeat split; try (by exists u); simpl; lia.
Qed.

Lemma tick_invariant (v : Viewer) :
  onList (Open v) -> screenValid (Open v) ->
  onList (tick allUsersStories v) /\ screenValid (tick allUsersStories v).
Proof.
  intros Hon Hval. destruct (timerRunning v) eqn:Hrun.
  - destruct (decide (progress v < 100)) as [Hlt|Hge].
    + rewrite tick_below by done. destruct Hon as [Hu Hv], Hval as [_ Hp].
      rewrite increment_is_1. unfold indexValid in Hv.
      repeat split; try done; simpl; lia.
    + rewrite tick_full by (done || lia). by apply Advance_invariant.
  - by rewrite tick_not_running.
Qed.

Lemma selectUser_invariant (us : UserWithStories) (s : Screen) :
  onList s -> screenValid s ->
  us ∈ allUsersStories -> loadSafe us s ->
  onList (selectUser us s) /\ screenValid (selectUser us s).
Proof.
  intros Hon Hval Hin Hsafe.
  apply list_elem_of_lookup_1 in Hin as [u Hu].
  pose proof (stories_nonempty u us Hu) as Hne.
  destruct s as [|v|]; [|simpl in Hsafe|done].
  - rewrite (selectUser_closed u us Hu).
    split; [by apply (onList_mount u)|]. repeat split; simpl; lia.
  - destruct Hon as [_ Hv], Hval as [_ Hp]. unfold indexValid in Hv.
    assert (Hv' : indexValid (setUserStories us v))
      by (unfold indexValid; simpl; lia).
    unfold selectUser, commit. rewrite (proj2 (renders_iff _) Hv').
    unfold resetWhenUserChanges. destruct (sameUser _ _).
    + rewrite (render_valid _ Hv'). repeat split; try (by exists u); simpl; lia.
    + rewrite render_valid by (unfold indexValid; simpl; lia).
      repeat split; try (by exists u); simpl; lia.
Qed.

(** Every transition keeps the cursor on a story of the list with the
    progress between 0 and 100, a selection in the carousel included
    when the mounted viewer can render it. *)
Lemma step_invariant (o : Op) (s : Screen) :
  onList s -> screenValid s ->
  match o with
  | OpLoad us => us ∈ allUsersStories /\ loadSafe us s
  | _ => True
  end ->
  onList (step allUsersStories o s) /\ screenValid (step allUsersStories o s).
Proof.
  intros Hon Hval Hsafe. destruct o as [us| | | | |]; simpl.
  - destruct Hsafe. by apply selectUser_invariant.
  - destruct s as [|v|]; simpl; [done| |done]. by apply Advance_invariant.
  - destruct s as [|v|]; simpl; [done| |done]. by apply Retreat_invariant.
  - destruct s as [|v|]; simpl; [done| |done]. by apply tick_invariant.
  - destruct s as [|v|]; simpl; done.
  - destruct s as [|v|]; simpl; done.
Qed.

Lemma run_invariant (ops : list Op) (s : Screen) :
  onList s -> screenValid s ->
  loadsSafe allUsersStories ops s ->
  onList (run allUsersStories ops s) /\ screenValid (run allUsersStories ops s).
Proof.
  revert s. induction ops as [|o ops IH]; intros s Hon Hval Hsafe; [done|].
  destruct Hsafe as [Ho Hrest].
  destruct (step_invariant o s Hon Hval Ho) as [Hon' Hval'].
  change (run allUsersStories (o :: ops) s)
    with (run allUsersStories ops (step allUsersStories o s)).
  by apply IH.
Qed.

(** Retreat as the code settles it.  From story [s] of the [u]-th
    sequence: to story [s - 1] when [s] is positive; from story 0 of a
    later sequence to story 0 of the sequence before it; from story 0 of
    the first sequence nowhere, the viewer staying open and unchanged.
    The progress is 0 after a move. *)
Theorem retreat_as_implemented (v : Viewer) (u : nat) :
  located allUsersStories v u ->
  indexValid v ->
  (0 < currentIndex v ->
     Retreat allUsersStories v =
       Open (setProgress 0 (setCurrentIndex (currentIndex v - 1) v))) /\
  (currentIndex v = 0 ->
     forall u' prevUser, u = S u' -> allUsersStories !! u' = Some prevUser ->
       Retreat allUsersStories v = Open (moveTo prevUser 0 v)) /\
  (currentIndex v = 0 -> u = 0%nat -> Retreat allUsersStories v = Open v).
Proof.
  intros Hu Hv. unfold indexValid in Hv. split; [|split].
  - intros Hpos. apply Retreat_within; lia.
  - intros Hs u' prevUser -> Hprev. apply (Retreat_prev_user v u'); [done|lia|done].
  - intros Hs ->. by apply Retreat_first.
Qed.

(** From the closed carousel, any sequence of selections, Advances,
    Retreats, timer firings, pause toggles and closes in which every
    selection is made on a closed viewer, or onto a sequence that has a
    story at the current index, leaves the viewer closed or open on a
    story of the list with the progress between 0 and 100. *)
Theorem cursor_invariant_safe_loads (ops : list Op) :
  loadsSafe allUsersStories ops Closed ->
  onList (run allUsersStories ops Closed) /\
  screenValid (run allUsersStories ops Closed).
Proof. intros Hsafe. by apply run_invariant. Qed.

End WellFormedList.

End PlaybackSpec.

(* ===================================================================== *)
(** * The sample list, run                                                *)
(* ===================================================================== *)

Module Scenarios.
Import StoryViewer PlaybackSpec Sample.

Lemma users_wellFormed : WellFormed users.
Proof.
  split.
  - apply NoDup_cons. split; [|apply NoDup_singleton].
    by intros ?%list_elem_of_singleton.
  - by repeat constructor.
Qed.

Lemma advance_transition_witness :
  Advance users watching_a3 = Open (moveTo ben 0 watching_a3) /\
  position users (Advance users watching_a3) = Some (Z.of_nat 0 + 1, 0).
Proof.
  destruct (advance_transition users users_wellFormed watching_a3 0 2
              eq_refl eq_refl ltac:(split; by compute)) as (_ & _ & Hnext & _).
  apply Hnext; [by compute | reflexivity].
Defined.

Lemma advance_terminates_witness :
  Nat.iter (totalStoryCount users) (onScreen (Advance users))
    (selectUser ana Closed) = Closed.
Proof.
  exact (proj1 (proj2 (advance_terminates users users_wellFormed ana eq_refl))).
Defined.

Lemma image_timer_witness :
  elapse users duration (Open (mount ana)) = Open (setProgress 100 (mount ana)) /\
  tick users (setProgress 100 (mount ana)) =
    Advance users (setProgress 100 (mount ana)).
Proof.
  destruct (image_timer users (mount ana) eq_refl eq_refl)
    as (_ & _ & Hfull & Hadv & _).
  split; [exact Hfull | exact Hadv].
Defined.

(** Four Advances walk through a1, a2, a3 and b1 and close the viewer. *)
Example walk_through :
  run users [OpLoad ana; OpAdvance] Closed = Open (moveTo ana 1 (mount ana)) /\
  run users [OpLoad ana; OpAdvance; OpAdvance; OpAdvance] Closed =
    Open (mount ben) /\
  run users [OpLoad ana; OpAdvance; OpAdvance; OpAdvance; OpAdvance] Closed =
    Closed.
Proof. repeat split; vm_compute; reflexivity. Qed.

(** The firing that writes 100 leaves the story on screen; the next one,
    50 ms later, advances. *)
Example timer_advances_on_the_next_firing :
  elapse users 5000 (Open (mount ana)) = Open (setProgress 100 (mount ana)) /\
  elapse users 5050 (Open (mount ana)) = Open (moveTo ana 1 (mount ana)).
Proof. split; vm_compute; reflexivity. Qed.

(** No timer runs on a video story or on a paused viewer. *)
Example timer_off :
  tick users (mount ben) = Open (mount ben) /\
  tick users (setIsPaused true (mount ana)) = Open (setIsPaused true (mount ana)).
Proof. split; vm_compute; reflexivity. Qed.

(** C2. Retreat from Ben's first story: the handler asks for Ana's last
    story, index 2, and the effect that resets the cursor whenever the
    user changes then puts the viewer on Ana's story 0.  Inside one
    sequence and at the very first story Retreat behaves as described. *)
Theorem retreat_crossing_users_lands_on_story_0 :
  position users (Open watching_b1) = Some (1, 0) /\
  goToPrevStory users watching_b1 = Open (moveTo ana 2 watching_b1) /\
  Retreat users watching_b1 = Open (moveTo ana 0 watching_b1) /\
  position users (Retreat users watching_b1) = Some (0, 0) /\
  position users (Retreat users watching_b1) <>
    Some (0, length_ (stories ana) - 1) /\
  Retreat users watching_a3 = Open (moveTo ana 1 watching_a3) /\
  Retreat users (mount ana) = Open (mount ana).
Proof.
  repeat split; first [vm_compute; reflexivity | by vm_compute].
Qed.

(** C9. With Ana's third story on screen, selecting Ben in the carousel
    hands the mounted viewer a sequence of one story while its index is
    still 2: [currentStory] is undefined, the render throws, and the reset
    effect never runs. *)
Theorem selection_with_stale_index_fails :
  run users [OpLoad ana; OpAdvance; OpAdvance] Closed = Open watching_a3 /\
  currentIndex (setUserStories ben watching_a3) = 2 /\
  length_ (stories (userStories (setUserStories ben watching_a3))) = 1 /\
  currentStory (setUserStories ben watching_a3) = None /\
  run users [OpLoad ana; OpAdvance; OpAdvance; OpLoad ben] Closed = Crashed.
Proof. repeat split; vm_compute; reflexivity. Qed.

Lemma retreat_as_implemented_witness :
  Retreat users watching_a3 =
    Open (setProgress 0 (setCurrentIndex (currentIndex watching_a3 - 1) watching_a3)).
Proof.
  destruct (retreat_as_implemented users users_wellFormed watching_a3 0
              eq_refl ltac:(split; by compute)) as (Hwithin & _ & _).
  apply Hwithin. by compute.
Defined.

Lemma cursor_invariant_safe_loads_witness :
  screenValid
    (run users [OpLoad ana; OpAdvance; OpTick; OpRetreat; OpLoad ben] Closed).
Proof.
  apply (cursor_invariant_safe_loads users users_wellFormed
           [OpLoad ana; OpAdvance; OpTick; OpRetreat; OpLoad ben]).
  repeat split; try by compute.
  - apply list_elem_of_here.
  - apply list_elem_of_further, list_elem_of_here.
Defined.

End Scenarios.

(* ===================================================================== *)
(** * More on mediaUtils.ts: validation and URL matching                  *)
(* ===================================================================== *)

Module MediaUtilsMore.
Import MediaUtils MediaUtilsSpec.

Lemma image_xor_video (file : File) :
  isImageFile file = true -> isVideoFile file = true -> False.
Proof.
  unfold isImageFile, isVideoFile, startsWith.
  intros [r1 H1]%prefix_iff [r2 H2]%prefix_iff.
  rewrite H1 in H2. discriminate H2.
Qed.

(** A file passes [validateMediaFile] exactly when it is an image of at
    most 10 MB or a video of at most 50 MB (the limits themselves are
    accepted); it carries an error message exactly when it does not pass,
    and the message names the reason: not a media file, image too large,
    video too large. *)
Theorem validateMediaFile_spec (file : File) :
  (valid (validateMediaFile file) = true <->
     (isImageFile file = true /\ size file <= 10485760) \/
     (isVideoFile file = true /\ size file <= 52428800)) /\
  (valid (validateMediaFile file) = true <->
     error (validateMediaFile file) = None) /\
  (isImageFile file = false -> isVideoFile file = false ->
     error (validateMediaFile file) =
       Some "Please select an image or video file") /\
  (isImageFile file = true -> 10485760 < size file ->
     error (validateMediaFile file) = Some "Image must be less than 10MB") /\
  (isVideoFile file = true -> 52428800 < size file ->
     error (validateMediaFile file) = Some "Video must be less than 50MB").
Proof.
  pose proof (image_xor_video file) as Hx.
  unfold validateMediaFile, isValidMediaFile, MAX_IMAGE_SIZE, MAX_VIDEO_SIZE.
  change (10 * 1024 * 1024) with 10485760.
  change (50 * 1024 * 1024) with 52428800.
  destruct (isImageFile file) eqn:Hi, (isVideoFile file) eqn:Hv;
    try (exfalso; by apply Hx);
    destruct (Z.ltb_spec 10485760 (size file));
    destruct (Z.ltb_spec 52428800 (size file));
    cbn [negb orb andb valid error];
    repeat split; intros; try done; try lia;
    try (left; split; [done|lia]); try (right; split; [done|lia]);
    try (destruct H1 as [[? ?]|[? ?]]; (done || lia)).
Qed.

Lemma lowerChar_idem (c : ascii) : lowerChar (lowerChar c) = lowerChar c.
Proof. destruct c as [[] [] [] [] [] [] [] []]; reflexivity. Qed.

Lemma toLowerCase_idem (s : string) : toLowerCase (toLowerCase s) = toLowerCase s.
Proof.
  induction s as [|c s IH]; [done|].
  cbn [toLowerCase]. by rewrite lowerChar_idem, IH.
Qed.

Lemma toLowerCase_app (s t : string) :
  toLowerCase (s +:+ t) = toLowerCase s +:+ toLowerCase t.
Proof.
  induction s as [|c s IH]; [done|].
  rewrite append_cons. cbn [toLowerCase]. by rewrite IH, append_cons.
Qed.

Lemma append_assoc (s t u : string) : (s +:+ t) +:+ u = s +:+ (t +:+ u).
Proof.
  induction s as [|c s IH]; [done|]. by rewrite !append_cons, IH.
Qed.

Lemma append_length (s t : string) :
  String.length (s +:+ t) = (String.length s + String.length t)%nat.
Proof.
  induction s as [|c s IH]; [done|].
  rewrite append_cons. cbn [String.length]. by rewrite IH.
Qed.

Lemma toLowerCase_length (s : string) :
  String.length (toLowerCase s) = String.length s.
Proof. induction s as [|c s IH]; [done|]. cbn. by rewrite IH. Qed.

(** The verdict of [isVideoUrl] does not depend on letter case, survives
    any text put before or after the URL (a host, a path, a query
    string), and is negative for every text shorter than four
    characters, the empty one included. *)
Theorem isVideoUrl_robust (url : string) :
  isVideoUrl (toLowerCase url) = isVideoUrl url /\
  (isVideoUrl url = true ->
     forall before after, isVideoUrl (before +:+ url +:+ after) = true) /\
  ((String.length url < 4)%nat -> isVideoUrl url = false).
Proof.
  split; [|split].
  - unfold isVideoUrl. by rewrite toLowerCase_idem.
  - intros (ext & pre & post & Hin & Hl)%isVideoUrl_iff before after.
    apply isVideoUrl_iff.
    exists ext, (toLowerCase before +:+ pre), (post +:+ toLowerCase after).
    split; [done|].
    rewrite !toLowerCase_app, Hl, !append_assoc. reflexivity.
  - intros Hlen. destruct (isVideoUrl url) eqn:E; [|done].
    apply isVideoUrl_iff in E as (ext & pre & post & Hin & Hl).
    apply (f_equal String.length) in Hl.
    rewrite toLowerCase_length, !append_length in Hl.
    assert (4 <= String.length ext)%nat.
    { simpl in Hin. destruct Hin as [<-|[<-|[<-|[<-|[<-|[<-|[]]]]]]];
        cbn; lia. }
    lia.
Qed.

End MediaUtilsMore.

(* ===================================================================== *)
(** * More on the playback controller                                     *)
(* ===================================================================== *)

Module PlaybackMore.
Import StoryViewer StoryViewerEvents PlaybackSpec.

Lemma findIndexFrom_first {A} (p : A -> bool) (arr : list A) (i : Z)
    (n : nat) (x : A) :
  arr !! n = Some x ->
  i + Z.of_nat n < findIndexFrom p i arr ->
  p x = false.
Proof.
  revert i n. induction arr as [|y arr IH]; intros i n Hn Hlt; [done|].
  simpl in Hlt. destruct (p y) eqn:Hy; [lia|].
  destruct n as [|n]; simpl in Hn.
  - by injection Hn as <-.
  - apply (IH (i + 1) n Hn). lia.
Qed.

Lemma nextUser_defined (allUsersStories : list UserWithStories) (v : Viewer) :
  hasNextUser allUsersStories v = true ->
  is_Some (at_ allUsersStories (currentUserIndex allUsersStories v + 1)).
Proof.
  unfold hasNextUser, currentUserIndex, findIndex. intros H.
  apply Z.ltb_lt in H. apply at_is_Some.
  destruct (findIndexFrom_range (fun u => sameUser u (userStories v))
              allUsersStories 0) as [Hm|Hr]; lia.
Qed.

(** The chevrons tell the truth, on any list: the right one is hidden
    exactly when going forward would close the viewer, and the left one
    exactly when going back would request nothing. *)
Theorem arrows_match_navigation (allUsersStories : list UserWithStories)
    (v : Viewer) :
  (showNextArrow allUsersStories v = false <->
     goToNextStory allUsersStories v = Closed) /\
  (showPrevArrow allUsersStories v = false <->
     goToPrevStory allUsersStories v = Open v).
Proof.
  split.
  - unfold showNextArrow, goToNextStory.
    destruct (currentIndex v <? length_ (stories (userStories v)) - 1);
      [by split|].
    cbn [orb]. destruct (hasNextUser allUsersStories v) eqn:Hn; [|by split].
    destruct (nextUser_defined _ _ Hn) as [next ->]. by split.
  - unfold showPrevArrow, goToPrevStory.
    destruct (Z.ltb_spec 0 (currentIndex v)) as [Hpos|Hzero].
    + split; [done|]. intros [= Heq].
      apply (f_equal currentIndex) in Heq. simpl in Heq. lia.
    + cbn [orb]. destruct (hasPrevUser allUsersStories v) eqn:Hp; [|by split].
      split; [done|].
      destruct (prevUser_defined _ _ Hp) as [prevUser Hprev]. rewrite Hprev.
      intros [= Heq]. apply (f_equal userStories) in Heq. simpl in Heq.
      subst prevUser. exfalso.
      unfold hasPrevUser in Hp. apply Z.ltb_lt in Hp.
      apply at_Some_range in Hprev as Hr.
      unfold at_ in Hprev.
      destruct (Z.ltb_spec (currentUserIndex allUsersStories v - 1) 0); [done|].
      pose proof (findIndexFrom_first
                    (fun u => sameUser u (userStories v)) allUsersStories 0
                    _ _ Hprev) as Hfirst.
      cbv beta in Hfirst. rewrite sameUser_refl in Hfirst.
      enough (true = false) by done. apply Hfirst.
      fold (findIndex (fun u => sameUser u (userStories v)) allUsersStories).
      fold (currentUserIndex allUsersStories v). lia.
Qed.

Lemma iter_fixed {A} (f : A -> A) (x : A) (n : nat) :
  f x = x -> Nat.iter n f x = x.
Proof. intros H. induction n as [|n IH]; [done|]. simpl. by rewrite IH. Qed.

Lemma iter_S {A} (f : A -> A) (x : A) (n : nat) :
  Nat.iter (S n) f x = f (Nat.iter n f x).
Proof. reflexivity. Qed.

Lemma iter_plus {A} (f : A -> A) (x : A) (n m : nat) :
  Nat.iter (n + m) f x = Nat.iter n f (Nat.iter m f x).
Proof. induction n as [|n IH]; [done|]. simpl. by rewrite IH. Qed.

Lemma elapse_not_running (allUsersStories : list UserWithStories)
    (v : Viewer) (ms : Z) :
  timerRunning v = false -> elapse allUsersStories ms (Open v) = Open v.
Proof.
  intros H. unfold elapse. apply iter_fixed. cbn [onScreen].
  by apply tick_not_running.
Qed.

(** The interval timer does nothing, however long one waits, to a
    viewer that is paused or shows a video; and pausing an unpaused
    viewer on an image story, waiting for any length of time and resuming
    gives back exactly the viewer that was paused, its progress
    included. *)
Theorem pause_freezes_the_viewer (allUsersStories : list UserWithStories)
    (v : Viewer) (ms : Z) :
  (isPaused v = true \/ isVideo v = true ->
     elapse allUsersStories ms (Open v) = Open v) /\
  (isPaused v = false -> isVideo v = false ->
     onScreen togglePause (elapse allUsersStories ms (togglePause v)) = Open v).
Proof.
  split.
  - intros H. apply elapse_not_running. unfold timerRunning.
    destruct H as [->| ->]; [by rewrite orb_true_r | done].
  - intros H _. unfold togglePause. rewrite H. cbn [negb].
    rewrite elapse_not_running.
    + cbn [onScreen]. unfold togglePause. destruct v; simpl in *. by subst.
    + unfold timerRunning. cbn [isPaused setIsPaused]. by rewrite orb_true_r.
Qed.

Lemma Advance_setProgress (allUsersStories : list UserWithStories)
    (v : Viewer) (p : Z) :
  Advance allUsersStories (setProgress p v) = Advance allUsersStories v.
Proof. reflexivity. Qed.

Lemma Advance_isPaused (allUsersStories : list UserWithStories)
    (v v' : Viewer) :
  Advance allUsersStories v = Open v' -> isPaused v' = isPaused v.
Proof.
  unfold Advance, goToNextStory, onNavigateUser, onClose, commit, render,
    resetWhenUserChanges.
  repeat case_match; intros; simplify_eq; reflexivity.
Qed.

Section OnAWellFormedList.

Variable allUsersStories : list UserWithStories.
Hypothesis Hwf : WellFormed allUsersStories.

(** Advance and then Retreat: inside a sequence the viewer is back on
    the story it left, with the progress at 0; after crossing into the
    next sequence it is back in the sequence it left, but on its story 0. *)
Theorem advance_then_retreat (v : Viewer) (u : nat) :
  located allUsersStories v u ->
  indexValid v ->
  (currentIndex v + 1 < length_ (stories (userStories v)) ->
     onScreen (Retreat allUsersStories) (Advance allUsersStories v) =
       Open (setProgress 0 v)) /\
  (~ currentIndex v + 1 < length_ (stories (userStories v)) ->
     forall next, allUsersStories !! S u = Some next ->
       onScreen (Retreat allUsersStories) (Advance allUsersStories v) =
         Open (moveTo (userStories v) 0 v)).
Proof.
  intros Hu Hv. unfold indexValid in Hv. split.
  - intros Hlt. rewrite Advance_within by lia. cbn [onScreen].
    rewrite Retreat_within by (simpl; lia).
    cbn [currentIndex setProgress setCurrentIndex].
    replace (currentIndex v + 1 - 1) with (currentIndex v) by lia.
    reflexivity.
  - intros Hlast next Hnext.
    rewrite (Advance_next_user _ Hwf v u next Hu Hlast Hnext). cbn [onScreen].
    by rewrite (Retreat_prev_user _ Hwf (moveTo next 0 v) u (userStories v)
                  Hnext ltac:(simpl; lia) Hu).
Qed.

(** From any story of the list the viewer is closed after exactly as
    many Advances as there are stories from that story, itself included,
    to the end of the list, and not before. *)
Theorem advances_until_closed (v : Viewer) (u : nat) :
  located allUsersStories v u ->
  indexValid v ->
  remaining allUsersStories (Open v) =
    (length (stories (userStories v)) - Z.to_nat (currentIndex v) +
     totalStoryCount (drop (S u) allUsersStories))%nat /\
  Nat.iter (remaining allUsersStories (Open v))
    (onScreen (Advance allUsersStories)) (Open v) = Closed /\
  (forall k, (k < remaining allUsersStories (Open v))%nat ->
     exists v', Nat.iter k (onScreen (Advance allUsersStories)) (Open v) =
                Open v').
Proof.
  intros Hu Hv.
  assert (Hon : onList allUsersStories (Open v)) by (split; [by exists u|done]).
  split; [|split].
  - unfold remaining.
    by rewrite (currentUserIndex_located _ Hwf _ _ Hu), Nat2Z.id.
  - destruct (iter_Advance _ Hwf (remaining allUsersStories (Open v)) _ Hon)
      as [Hl Hr].
    rewrite Nat.sub_diag in Hr.
    destruct (Nat.iter _ _ _) as [|v'|]; [done| |done].
    pose proof (remaining_positive _ v' Hl). lia.
  - intros k Hk. destruct (iter_Advance _ Hwf k _ Hon) as [Hl Hr].
    destruct (Nat.iter k _ _) as [|v'|]; [|by exists v'|done].
    change (remaining allUsersStories Closed) with 0%nat in Hr. lia.
Qed.

Hypothesis Himages : allImages allUsersStories.

Lemma walking_timerRunning (v : Viewer) :
  walking allUsersStories (Open v) -> timerRunning v = true.
Proof.
  intros ([u Hu] & Hv & Hp & _). unfold timerRunning, isVideo.
  destruct (at_is_Some _ _ Hv) as [story Hs]. unfold currentStory.
  rewrite Hs, Hp, orb_false_r.
  pose proof Himages as Hi. unfold allImages in Hi.
  rewrite Forall_lookup in Hi. specialize (Hi u _ Hu).
  rewrite Forall_forall in Hi. rewrite Hi; [done|].
  unfold at_ in Hs. destruct (currentIndex v <? 0); [done|].
  by eapply list_elem_of_lookup_2.
Qed.

Lemma Advance_walking (v : Viewer) :
  walking allUsersStories (Open v) ->
  walking allUsersStories (Advance allUsersStories v).
Proof.
  intros (Hu & Hv & Hp & Hz).
  destruct (Advance_invariant _ Hwf v (conj Hu Hv)) as [Hon _].
  destruct (Advance allUsersStories v) as [|v'|] eqn:E; [done| |done].
  destruct Hon as [Hu' Hv']. split; [done|]. split; [done|]. split.
  - by rewrite (Advance_isPaused _ _ _ E).
  - by apply (Advance_progress _ _ _ E).
Qed.

(** One story's worth of timer firings is one Advance. *)
Lemma story_time_is_one_Advance (s : Screen) :
  walking allUsersStories s ->
  Nat.iter 101 (onScreen (tick allUsersStories)) s =
    onScreen (Advance allUsersStories) s.
Proof.
  intros Hw. destruct s as [|v|]; [by apply iter_fixed| |done].
  pose proof (walking_timerRunning v Hw) as Hrun.
  destruct Hw as (_ & _ & _ & Hz).
  rewrite (iter_S _ _ 100).
  rewrite (ticks_count _ _ 100 Hrun Hz) by lia. cbn [onScreen].
  rewrite increment_is_1.
  rewrite tick_full; [apply Advance_setProgress|done|].
  cbn [progress setProgress]. lia.
Qed.

Lemma timer_iterates_Advance (s : Screen) (k : nat) :
  walking allUsersStories s ->
  Nat.iter (101 * k) (onScreen (tick allUsersStories)) s =
    Nat.iter k (onScreen (Advance allUsersStories)) s /\
  walking allUsersStories (Nat.iter k (onScreen (Advance allUsersStories)) s).
Proof.
  intros Hw. induction k as [|k [IHeq IHw]]; [by rewrite Nat.mul_0_r|].
  replace (101 * S k)%nat with (101 + 101 * k)%nat by lia.
  rewrite iter_plus, IHeq.
  change (Nat.iter (S k) ?f ?x) with (f (Nat.iter k f x)).
  split; [by apply story_time_is_one_Advance|].
  destruct (Nat.iter k _ s) as [|v|]; [done| |done].
  by apply Advance_walking.
Qed.

(** Left alone on a list of image stories, the viewer opened on the
    first story of the first sequence advances once every 5050 ms (the
    100 firings that fill the bar and the one that finds it full), and
    is closed when as many such periods have passed as the list has
    stories. *)
Theorem timer_walks_the_list (first : UserWithStories) :
  allUsersStories !! 0%nat = Some first ->
  (forall k : nat,
     elapse allUsersStories (Z.of_nat k * (duration + interval))
       (selectUser first Closed) =
     Nat.iter k (onScreen (Advance allUsersStories)) (selectUser first Closed)) /\
  elapse allUsersStories
    (Z.of_nat (totalStoryCount allUsersStories) * (duration + interval))
    (selectUser first Closed) = Closed.
Proof.
  intros Hfirst. rewrite (selectUser_closed _ Hwf 0 first Hfirst).
  pose proof (onList_mount _ Hwf 0 first Hfirst) as Hon.
  assert (Hw : walking allUsersStories (Open (mount first))).
  { destruct Hon as [Hu Hv]. split; [done|]. split; [done|]. by split. }
  assert (Hk : forall k : nat,
    elapse allUsersStories (Z.of_nat k * (duration + interval))
      (Open (mount first)) =
    Nat.iter k (onScreen (Advance allUsersStories)) (Open (mount first))).
  { intros k. unfold elapse, duration, interval.
    replace (Z.to_nat (Z.of_nat k * (5000 + 50) / 50)) with (101 * k)%nat.
    - by apply timer_iterates_Advance.
    - replace (Z.of_nat k * (5000 + 50)) with (Z.of_nat (101 * k) * 50) by lia.
      rewrite Z.div_mul by lia. by rewrite Nat2Z.id. }
  split; [exact Hk|]. rewrite Hk.
  assert (Hloc : located allUsersStories (mount first) 0) by exact Hfirst.
  assert (Hrem : remaining allUsersStories (Open (mount first)) =
                 totalStoryCount allUsersStories).
  { unfold remaining. rewrite (currentUserIndex_located _ Hwf _ _ Hloc).
    destruct allUsersStories as [|x rest]; [done|].
    injection Hfirst as ->. simpl. rewrite totalStoryCount_cons, drop_0. lia. }
  destruct (iter_Advance _ Hwf (totalStoryCount allUsersStories) _ Hon)
    as [Hl Hr].
  rewrite Hrem, Nat.sub_diag in Hr.
  destruct (Nat.iter _ _ _) as [|v|]; [done| |done].
  pose proof (remaining_positive _ v Hl). lia.
Qed.

End OnAWellFormedList.

End PlaybackMore.

(* ===================================================================== *)
(** * More on likes: fetches and responses in any order                   *)
(* ===================================================================== *)

Module LikeMore.
Import StoryViewer StoryViewerEvents LikeSpec.

Lemma step_likes (allUsersStories : list UserWithStories) (o : Op)
    (v v' : Viewer) :
  step allUsersStories o (Open v) = Open v' -> likes v' = likes v.
Proof.
  destruct o; simpl;
    unfold selectUser, Advance, Retreat, tick, togglePause, goToNextStory,
      goToPrevStory, onNavigateUser, onClose, commit, render,
      resetWhenUserChanges, mapOpen;
    repeat case_match; intros; simplify_eq; reflexivity.
Qed.

Lemma likesSane_empty : likesSane ∅.
Proof. intros k l H. by rewrite lookup_empty in H. Qed.

Lemma likesSane_insert (m : gmap string LikeState) (k : string) (l : LikeState) :
  likesSane m -> likeSane l -> likesSane (<[k := l]> m).
Proof.
  intros Hm Hl k' l' H. destruct (decide (k = k')) as [->|Hne].
  - rewrite lookup_insert_eq in H. by injection H as <-.
  - rewrite lookup_insert_ne in H by done. by apply (Hm k').
Qed.

Lemma likeOf_sane (m : gmap string LikeState) (k : string) :
  likesSane m -> likeSane (likeOf m k).
Proof.
  intros Hm. unfold likeOf. destruct (m !! k) as [l|] eqn:E; simpl.
  - by apply (Hm k).
  - split; [done|]. by simpl.
Qed.

Lemma handleLikeBegin_sane (user : option string) (v v' : Viewer) (p : Pending) :
  likesSane (likes v) ->
  handleLikeBegin user v = Issued v' p ->
  likesSane (likes v') /\ likeSane (storyLike p).
Proof.
  intros Hm. unfold handleLikeBegin.
  destruct user as [uid|]; [|done]. destruct (currentStory v) as [cs|]; [|done].
  destruct (isLiked (likeOf (likes v) (id cs))) eqn:E;
    intros [= <- <-]; cbn [likes setLikes setIsAnimating storyLike];
    pose proof (likeOf_sane _ (id cs) Hm) as Hsane;
    (split; [apply likesSane_insert; [done|] | exact Hsane]);
    destruct Hsane as [H0 H1].
  - split; simpl; [|done]. specialize (H1 E). lia.
  - split; simpl; intros; lia.
Qed.

Lemma handleLikeResume_sane (p : Pending) (error : bool) (v : Viewer) :
  likesSane (likes v) -> likeSane (storyLike p) ->
  likesSane (likes (handleLikeResume p error v).1).
Proof.
  intros Hm [H0 H1]. unfold handleLikeResume.
  destruct error; [|done].
  destruct (isLiked (storyLike p)) eqn:E; cbn [fst likes setLikes];
    apply likesSane_insert; try done; split; simpl; done.
Qed.

Lemma existsb_nonempty {A} (f : A -> bool) (l : list A) :
  existsb f l = true -> 1 <= length_ l.
Proof. destruct l; [done|]. unfold length_. simpl. lia. Qed.

Lemma fetchLikesResolved_sane (user : option string) (cs : Story)
    (data : option (list string)) (v : Viewer) :
  likesSane (likes v) -> likesSane (likes (fetchLikesResolved user cs data v)).
Proof.
  intros Hm. unfold fetchLikesResolved. cbn [likes setLikes].
  apply likesSane_insert; [done|]. split; simpl.
  - unfold length_. lia.
  - apply existsb_nonempty.
Qed.

Lemma react_sane (allUsersStories : list UserWithStories)
    (user : option string) (e : Event) (x : Session) :
  sessionSane x -> sessionSane (react allUsersStories user e x).
Proof.
  intros [Hs Hp]. unfold react.
  destruct (screen x) as [|v|] eqn:Hx.
  - destruct e; try by (split; [by rewrite Hx|]).
    split; [|by apply Forall_nil]. cbn [screen].
    destruct o; simpl; try done.
    unfold render. destruct (renders (mount us)); simpl;
      [apply likesSane_empty | done].
  - destruct e as [o| |n error|cs data].
    + destruct (step allUsersStories o (Open v)) as [|v'|] eqn:E;
        (split; [|by (done || apply Forall_nil)]); cbn [screen]; [done| |done].
      by rewrite (step_likes _ _ _ _ E).
    + destruct (handleLikeBegin user v) as [notice|v' p] eqn:E.
      * split; [by rewrite Hx|done].
      * destruct (handleLikeBegin_sane _ _ _ _ Hs E) as [Hv' Hp'].
        split; [done|]. cbn [inFlight]. apply Forall_app. split; [done|].
        by apply Forall_singleton.
    + destruct (inFlight x !! n) as [p|] eqn:E.
      * split; cbn [screen inFlight].
        -- apply handleLikeResume_sane; [done|].
           rewrite Forall_lookup in Hp. by apply (Hp n).
        -- by apply Forall_delete.
      * split; [by rewrite Hx|done].
    + split; [|done]. cbn [screen]. by apply fetchLikesResolved_sane.
  - destruct e; try by (split; [by rewrite Hx|]).
    split; [|by apply Forall_nil]. cbn [screen]. by destruct o.
Qed.

(** However playback operations, clicks on the heart, responses to the
    writes in flight (in any order, failed or not) and results of the
    like queries interleave, starting from the closed carousel, no entry
    of the like map ever has a negative count or is liked with a count
    below one; so neither has the heart that is displayed. *)
Theorem likes_stay_sane (allUsersStories : list UserWithStories)
    (user : option string) (es : list Event) :
  match screen (reactAll allUsersStories user es idle) with
  | Open v => likesSane (likes v) /\ likeSane (currentLike v)
  | _ => True
  end.
Proof.
  assert (H : sessionSane (reactAll allUsersStories user es idle)).
  { assert (H0 : sessionSane idle) by (split; simpl; [done|constructor]).
    revert H0. generalize idle. unfold reactAll.
    induction es as [|e es IH]; intros x Hx; [done|].
    simpl. apply IH. by apply react_sane. }
  destruct H as [H _].
  destruct (screen _) as [|v|]; [done| |done].
  split; [done|]. unfold currentLike. destruct (currentStory v); by apply likeOf_sane.
Qed.

(** A fetch that lands between a click and its response: when the write
    failed, the rollback puts the entry read at click time over the
    fetched one; when it succeeded, the fetched entry stays. *)
Theorem fetch_between_click_and_response (uid : string) (v : Viewer)
    (cs : Story) (data : option (list string)) :
  currentStory v = Some cs ->
  exists v' p,
    handleLikeBegin (Some uid) v = Issued v' p /\
    likes (handleLikeResume p true
             (fetchLikesResolved (Some uid) cs data v')).1 !! id cs =
      Some (currentLike v) /\
    likes (handleLikeResume p false
             (fetchLikesResolved (Some uid) cs data v')).1 !! id cs =
      Some {| isLiked := existsb (fun l => bool_decide (Some l = Some uid))
                                 (default [] data);
              count := length_ (default [] data) |}.
Proof.
  intros Hcs.
  destruct (handleLikeBegin_signed_in uid v cs Hcs)
    as (v' & p & Hb & Hcs' & Hp & Hsl & Hreq & Hl).
  exists v', p. split; [done|]. split.
  - unfold handleLikeResume. rewrite Hsl, Hp, (currentLike_story v cs Hcs).
    destruct (isLiked (likeOf (likes v) (id cs))) eqn:E;
      cbn [fst likes setLikes]; rewrite lookup_insert_eq; f_equal;
      rewrite <- E; apply likeState_eta.
  - unfold handleLikeResume, fetchLikesResolved. cbn [fst likes setLikes].
    by rewrite lookup_insert_eq.
Qed.

End LikeMore.

(* ===================================================================== *)
(** * Create.tsx: the selected file                                       *)
(* ===================================================================== *)

Module CreatePageSpec.
Import MediaUtils CreatePage.

Lemma act_consistent (createObjectURL : File -> string) (a : Action)
    (st : State) :
  consistent createObjectURL st ->
  consistent createObjectURL (act createObjectURL a st).
Proof.
  intros H. destruct a as [[file|]|]; simpl; try done.
  unfold handleFileSelect.
  destruct (valid (validateMediaFile file)) eqn:E; simpl; [|done].
  by unfold consistent.
Qed.

(** Whatever files are offered to the picker and whenever the media is
    removed, the file the page holds has passed validation, the video
    flag is the file's own ([type] starts with "video/"), and the preview
    is that file's object URL; with no file held the flag is off and
    there is no preview.  A file that fails validation changes nothing
    and raises its error message. *)
Theorem selected_file_is_valid (createObjectURL : File -> string)
    (acts : list Action) (file : File) (st : State) :
  consistent createObjectURL (actAll createObjectURL acts initial) /\
  (valid (validateMediaFile file) = false ->
     handleFileSelect createObjectURL (Some file) st =
       (st, Some (error (validateMediaFile file)))).
Proof.
  split.
  - assert (H0 : consistent createObjectURL initial) by done.
    revert H0. generalize initial. unfold actAll.
    induction acts as [|a acts IH]; intros st0 H0; [done|].
    simpl. apply IH. by apply act_consistent.
  - intros H. unfold handleFileSelect. by rewrite H.
Qed.

End CreatePageSpec.

(* ===================================================================== *)
(** * StoriesCarousel.tsx: the list handed to the viewer                  *)
(* ===================================================================== *)

Module StoriesCarouselSpec.
Import StoryViewer StoriesCarousel.

Lemma mapGet_mapSet_eq {V} (k : string) (v : V) (m : JsMap V) :
  mapGet k (mapSet k v m) = Some v.
Proof.
  induction m as [|[k' v'] m IH]; simpl.
  - by rewrite bool_decide_eq_true_2.
  - destruct (decide (k' = k)) as [->|Hne].
    + rewrite bool_decide_eq_true_2 by done. simpl.
      by rewrite bool_decide_eq_true_2.
    + rewrite bool_decide_eq_false_2 by done. simpl.
      by rewrite bool_decide_eq_false_2.
Qed.

Lemma mapGet_mapSet_ne {V} (k k' : string) (v : V) (m : JsMap V) :
  k <> k' -> mapGet k' (mapSet k v m) = mapGet k' m.
Proof.
  intros Hne. induction m as [|[k0 v0] m IH]; simpl.
  - by rewrite bool_decide_eq_false_2.
  - destruct (decide (k0 = k)) as [->|Hne0].
    + rewrite bool_decide_eq_true_2 by done. simpl.
      by rewrite !bool_decide_eq_false_2.
    + rewrite bool_decide_eq_false_2 by done. simpl. by rewrite IH.
Qed.

Lemma mapGet_keys {V} (k : string) (m : JsMap V) :
  is_Some (mapGet k m) <-> k ∈ mapKeys m.
Proof.
  unfold mapKeys. induction m as [|[k' v'] m IH]; simpl.
  - split; [by intros [? ?] | by intros ?%elem_of_nil].
  - rewrite elem_of_cons, <- IH. destruct (decide (k' = k)) as [->|Hne].
    + rewrite bool_decide_eq_true_2 by done. split; [by left | by eexists].
    + rewrite bool_decide_eq_false_2 by done. split; [by right | by intros [?|?]].
Qed.

Lemma groupStories_snoc (storiesData : list Story) (story : Story) :
  groupStories (storiesData ++ [story]) =
  mapSet (story_user_id story)
    (default [] (mapGet (story_user_id story) (groupStories storiesData))
       ++ [story])
    (groupStories storiesData).
Proof. unfold groupStories. by rewrite foldl_app. Qed.

(** Under each user id the map holds that user's rows, in the order of
    the query; ids without a row have no key. *)
Lemma groupStories_get (storiesData : list Story) (k : string) :
  mapGet k (groupStories storiesData) =
  match filter (fun s => story_user_id s = k) storiesData with
  | [] => None
  | l => Some l
  end.
Proof.
  induction storiesData as [|story sd IH] using rev_ind; [done|].
  rewrite groupStories_snoc, filter_app.
  destruct (decide (story_user_id story = k)) as [<-|Hne].
  - rewrite mapGet_mapSet_eq, IH.
    rewrite filter_cons_True by done. rewrite filter_nil.
    by destruct (filter _ sd).
  - rewrite mapGet_mapSet_ne by done. rewrite IH.
    rewrite filter_cons_False by done. by rewrite filter_nil, app_nil_r.
Qed.

Lemma groupStories_keys (storiesData : list Story) (k : string) :
  k ∈ mapKeys (groupStories storiesData) <->
  k ∈ story_user_id <$> storiesData.
Proof.
  rewrite <- mapGet_keys, groupStories_get, list_elem_of_fmap. split.
  - destruct (filter _ storiesData) as [|s l] eqn:E; [by intros [? ?]|].
    intros _. assert (Hs : s ∈ filter (fun s => story_user_id s = k) storiesData)
      by (rewrite E; apply list_elem_of_here).
    apply list_elem_of_filter in Hs as [Hk Hs]. by exists s.
  - intros (s & -> & Hs).
    assert (Hf : s ∈ filter (fun s' => story_user_id s' = story_user_id s)
                        storiesData) by (by apply list_elem_of_filter).
    destruct (filter _ storiesData); [by apply elem_of_nil in Hf | by eexists].
Qed.

Section Sorted.

Variable getTime : string -> Z.

Lemma insertStory_Permutation (x : Story) (l : list Story) :
  insertStory getTime x l ≡ₚ x :: l.
Proof.
  induction l as [|y l IH]; simpl; [done|].
  destruct (_ <=? _); [done|]. rewrite IH. apply Permutation_swap.
Qed.

Lemma sortStories_Permutation (l : list Story) : sortStories getTime l ≡ₚ l.
Proof.
  induction l as [|x l IH]; simpl; [done|].
  by rewrite insertStory_Permutation, IH.
Qed.

Lemma insertStory_Sorted (x : Story) (l : list Story) :
  Sorted (byTime getTime) l -> Sorted (byTime getTime) (insertStory getTime x l).
Proof.
  induction l as [|y l IH]; intros Hs; simpl.
  - by repeat constructor.
  - destruct (Z.leb_spec (getTime (created_at x)) (getTime (created_at y))).
    + constructor; [done|]. by constructor.
    + apply Sorted_inv in Hs as [Hs Hhd]. constructor; [by apply IH|].
      destruct l as [|z l]; simpl.
      * constructor. unfold byTime. lia.
      * destruct (_ <=? _); constructor; [unfold byTime; lia|].
        by apply HdRel_inv in Hhd.
Qed.

Lemma sortStories_Sorted (l : list Story) :
  Sorted (byTime getTime) (sortStories getTime l).
Proof.
  induction l as [|x l IH]; simpl; [constructor|]. by apply insertStory_Sorted.
Qed.

Lemma sortStories_nil (l : list Story) : sortStories getTime l = [] -> l = [].
Proof.
  intros H. apply Permutation_nil_r. rewrite <- H.
  symmetry. apply sortStories_Permutation.
Qed.

(** The loop of lines 83-98, whatever it started from. *)
Lemma build_from (uid : string) (m : JsMap (list Story))
    (profiles : list Profile) (acc : list UserWithStories) (flag : bool) :
  foldl (fun '(usersStories, hasCurrentUserStory) profile =>
           if bool_decide (profile_user_id profile = uid)
           then (userWithStories getTime m profile :: usersStories, true)
           else (usersStories ++ [userWithStories getTime m profile],
                 hasCurrentUserStory))
        (acc, flag) profiles =
  (reverse (userWithStories getTime m <$>
              filter (fun p => profile_user_id p = uid) profiles)
     ++ acc
     ++ (userWithStories getTime m <$>
           filter (fun p => profile_user_id p <> uid) profiles),
   flag || bool_decide (filter (fun p => profile_user_id p = uid) profiles <> [])).
Proof.
  revert acc flag. induction profiles as [|p ps IH]; intros acc flag.
  - simpl. by rewrite app_nil_r, orb_false_r.
  - cbn [foldl]. destruct (decide (profile_user_id p = uid)) as [Hp|Hp].
    + rewrite bool_decide_eq_true_2 by done. rewrite IH.
      rewrite filter_cons_True by done.
      rewrite (filter_cons_False (fun p => profile_user_id p <> uid)) by tauto.
      rewrite fmap_cons, reverse_cons, <- !app_assoc. simpl.
      by rewrite orb_true_r.
    + rewrite bool_decide_eq_false_2 by done. rewrite IH.
      rewrite filter_cons_False by done.
      rewrite (filter_cons_True (fun p => profile_user_id p <> uid)) by done.
      rewrite fmap_cons, <- !app_assoc. reflexivity.
Qed.

(** The list the carousel builds: the sequences of the signed-in user's
    profiles, last row first, then those of the other profiles in row
    order; the flag is on exactly when the first part is not empty. *)
Lemma buildUsersStories_eq (uid : string) (m : JsMap (list Story))
    (profiles : list Profile) :
  buildUsersStories getTime uid m profiles =
  (reverse (userWithStories getTime m <$>
              filter (fun p => profile_user_id p = uid) profiles)
     ++ (userWithStories getTime m <$>
           filter (fun p => profile_user_id p <> uid) profiles),
   bool_decide (filter (fun p => profile_user_id p = uid) profiles <> [])).
Proof. unfold buildUsersStories. by rewrite build_from. Qed.

Lemma built_from_a_profile (uid : string) (m : JsMap (list Story))
    (profiles : list Profile) (u : UserWithStories) :
  u ∈ (buildUsersStories getTime uid m profiles).1 <->
  exists p, p ∈ profiles /\ u = userWithStories getTime m p.
Proof.
  rewrite buildUsersStories_eq. cbn [fst].
  rewrite elem_of_app, elem_of_reverse, !list_elem_of_fmap.
  setoid_rewrite list_elem_of_filter. split.
  - intros [(p & -> & _ & Hp)|(p & -> & _ & Hp)]; by exists p.
  - intros (p & Hp & ->).
    destruct (decide (profile_user_id p = uid)); [left|right]; by exists p.
Qed.

Lemma fetchStories_inv (user : option string) (storiesData : list Story)
    (profilesOf : list string -> option (list Profile))
    (us : list UserWithStories) (flag : bool) :
  fetchStories getTime user (Some storiesData) profilesOf = Some (us, flag) ->
  (us = [] /\ flag = false /\ storiesData = []) \/
  exists uid profiles,
    user = Some uid /\
    profilesOf (mapKeys (groupStories storiesData)) = Some profiles /\
    (us, flag) = buildUsersStories getTime uid (groupStories storiesData) profiles.
Proof.
  unfold fetchStories. destruct user as [uid|]; [|done].
  case_bool_decide as Hlen.
  - intros [= <- <-]. left. split; [done|]. split; [done|].
    destruct storiesData as [|s sd _] using rev_ind; [done|].
    rewrite groupStories_snoc in Hlen. unfold mapKeys in Hlen.
    rewrite length_fmap in Hlen.
    by destruct (groupStories sd) as [|[k0 v0] m']; simpl in Hlen;
      repeat case_match.
  - destruct (profilesOf _) as [profiles|] eqn:E; [|done].
    intros [= H]. right. by exists uid, profiles.
Qed.

(** Every sequence the carousel builds holds exactly the fetched stories
    of its user, each once, ordered from the oldest to the newest. *)
Theorem sequences_hold_their_stories (user : option string)
    (storiesData : list Story)
    (profilesOf : list string -> option (list Profile))
    (us : list UserWithStories) (flag : bool) (u : UserWithStories) :
  fetchStories getTime user (Some storiesData) profilesOf = Some (us, flag) ->
  u ∈ us ->
  stories u ≡ₚ filter (fun s => story_user_id s = user_id u) storiesData /\
  Sorted (byTime getTime) (stories u).
Proof.
  intros [(-> & _ & _)|(uid & profiles & _ & _ & Hb)]%fetchStories_inv Hu.
  { by apply elem_of_nil in Hu. }
  apply (f_equal fst) in Hb. cbn [fst] in Hb. subst us.
  apply built_from_a_profile in Hu as (p & _ & ->).
  cbn [stories user_id userWithStories]. split.
  - rewrite sortStories_Permutation, groupStories_get.
    by destruct (filter _ storiesData).
  - apply sortStories_Sorted.
Qed.

(** When the [profiles] query answers with rows for requested ids only,
    at most one per id, the list the carousel builds has no empty
    sequence and no user twice; the flag is on exactly when the signed-in
    user has a sequence, and that sequence is then the first. *)
Theorem carousel_list_is_well_formed (uid : string)
    (storiesData : list Story)
    (profilesOf : list string -> option (list Profile))
    (us : list UserWithStories) (flag : bool) :
  fetchStories getTime (Some uid) (Some storiesData) profilesOf =
    Some (us, flag) ->
  (forall profiles,
     profilesOf (mapKeys (groupStories storiesData)) = Some profiles ->
     NoDup (profile_user_id <$> profiles) /\
     forall p, p ∈ profiles ->
       profile_user_id p ∈ mapKeys (groupStories storiesData)) ->
  WellFormed us /\
  (flag = true <-> uid ∈ user_id <$> us) /\
  (flag = true -> user_id <$> head us = Some uid).
Proof.
  intros [(-> & -> & _)|(uid' & profiles & [= <-] & Hq & Hb)]%fetchStories_inv
    Hanswer.
  { split; [split; constructor|]. split; [|done].
    split; [done|]. by intros ?%elem_of_nil. }
  destruct (Hanswer profiles Hq) as [Hnd Hin]. clear Hanswer.
  rewrite buildUsersStories_eq in Hb. injection Hb as -> ->.
  set (mine := filter (fun p => profile_user_id p = uid) profiles).
  set (others := filter (fun p => profile_user_id p <> uid) profiles).
  set (m := groupStories storiesData) in *.
  assert (Hids : user_id <$> (reverse (userWithStories getTime m <$> mine)
                              ++ (userWithStories getTime m <$> others))
                 ≡ₚ profile_user_id <$> profiles).
  { rewrite fmap_app, <- fmap_reverse, reverse_Permutation.
    rewrite <- !list_fmap_compose, <- fmap_app.
    apply fmap_Permutation.
    apply (filter_app_complement (fun p => profile_user_id p = uid)). }
  split; [split|split].
  - by rewrite Hids.
  - apply Forall_forall. intros u Hu.
    assert (Hu' : u ∈ (buildUsersStories getTime uid m profiles).1)
      by (by rewrite buildUsersStories_eq).
    apply built_from_a_profile in Hu' as (p & Hp & ->).
    cbn [stories userWithStories]. intros Hnil%sortStories_nil.
    apply Hin, mapGet_keys in Hp as [l Hl]. rewrite Hl in Hnil.
    simpl in Hnil. subst l. unfold m in Hl. rewrite groupStories_get in Hl.
    by destruct (filter _ storiesData).
  - rewrite Hids, bool_decide_eq_true, list_elem_of_fmap. split.
    + intros Hne. destruct mine as [|p l] eqn:E; [done|].
      assert (Hp : p ∈ mine) by (rewrite E; apply list_elem_of_here).
      apply list_elem_of_filter in Hp as [Hp1 Hp2]. by exists p.
    + intros (p & Hp1 & Hp2) Hnil.
      by apply (filter_nil_not_elem_of
                  (fun p => profile_user_id p = uid) profiles p Hnil).
  - rewrite bool_decide_eq_true. intros Hne.
    destruct (reverse (userWithStories getTime m <$> mine)) as [|x r] eqn:E.
    + apply (f_equal length) in E. rewrite length_reverse, length_fmap in E.
      by destruct mine.
    + simpl. f_equal.
      assert (Hx : x ∈ reverse (userWithStories getTime m <$> mine))
        by (rewrite E; apply list_elem_of_here).
      apply elem_of_reverse, list_elem_of_fmap in Hx as (p & -> & Hp).
      by apply list_elem_of_filter in Hp as [Hp _].
Qed.

End Sorted.

Lemma sequences_hold_their_stories_witness :
  stories Sample.ana ≡ₚ
    filter (fun s => story_user_id s = user_id Sample.ana) SampleFeed.rows /\
  Sorted (byTime SampleFeed.clock) (stories Sample.ana).
Proof.
  apply (sequences_hold_their_stories SampleFeed.clock (Some "ana")
           SampleFeed.rows (fun _ => Some SampleFeed.profiles)
           Sample.users true Sample.ana).
  - reflexivity.
  - apply list_elem_of_here.
Defined.

Lemma carousel_list_is_well_formed_witness :
  WellFormed Sample.users /\
  (true = true <-> "ana" ∈ user_id <$> Sample.users) /\
  (true = true -> user_id <$> head Sample.users = Some "ana").
Proof.
  apply (carousel_list_is_well_formed SampleFeed.clock "ana" SampleFeed.rows
           (fun _ => Some SampleFeed.profiles) Sample.users true).
  - reflexivity.
  - intros profiles [= <-]. split.
    + apply NoDup_cons. split; [|apply NoDup_singleton].
      by intros ?%list_elem_of_singleton.
    + intros p [->|[->|[]%elem_of_nil]%elem_of_cons]%elem_of_cons.
      * apply list_elem_of_further, list_elem_of_here.
      * apply list_elem_of_here.
Defined.

(** The sample rows and profiles give the sample list. *)
Example sample_feed :
  fetchStories SampleFeed.clock (Some "ana") (Some SampleFeed.rows)
    (fun _ => Some SampleFeed.profiles) = Some (Sample.users, true).
Proof. reflexivity. Qed.

End StoriesCarouselSpec.

(* ===================================================================== *)
(** * The sample list, run further                                        *)
(* ===================================================================== *)

Module MoreScenarios.
Import StoryViewer StoryViewerEvents PlaybackSpec Sample.

Lemma advance_then_retreat_witness :
  onScreen (Retreat users) (Advance users watching_a3) =
    Open (moveTo (userStories watching_a3) 0 watching_a3).
Proof.
  destruct (PlaybackMore.advance_then_retreat users Scenarios.users_wellFormed
              watching_a3 0 eq_refl ltac:(split; by compute)) as [_ Hcross].
  apply (Hcross ltac:(by compute) ben). reflexivity.
Defined.

Lemma advances_until_closed_witness :
  Nat.iter (remaining users (Open watching_a3))
    (onScreen (Advance users)) (Open watching_a3) = Closed.
Proof.
  exact (proj1 (proj2 (PlaybackMore.advances_until_closed users
                         Scenarios.users_wellFormed watching_a3 0
                         eq_refl ltac:(split; by compute)))).
Defined.

Lemma ana_alone_wellFormed : WellFormed [ana].
Proof. split; [apply NoDup_singleton | by repeat constructor]. Qed.

Lemma ana_alone_allImages : allImages [ana].
Proof. repeat constructor. Qed.

Lemma timer_walks_the_list_witness :
  elapse [ana] (Z.of_nat (totalStoryCount [ana]) * (duration + interval))
    (selectUser ana Closed) = Closed.
Proof.
  exact (proj2 (PlaybackMore.timer_walks_the_list [ana] ana_alone_wellFormed
                  ana_alone_allImages ana eq_refl)).
Defined.

Lemma fetch_between_click_and_response_witness :
  exists v' p,
    handleLikeBegin (Some "zoe") watching_a1 = Issued v' p /\
    likes (handleLikeResume p true
             (fetchLikesResolved (Some "zoe") a1 (Some ["kim"; "lee"]) v')).1
      !! id a1 = Some (currentLike watching_a1) /\
    likes (handleLikeResume p false
             (fetchLikesResolved (Some "zoe") a1 (Some ["kim"; "lee"]) v')).1
      !! id a1 =
      Some {| isLiked := existsb (fun l => bool_decide (Some l = Some "zoe"))
                                 (default [] (Some ["kim"; "lee"]));
              count := length_ (default [] (Some ["kim"; "lee"])) |}.
Proof.
  exact (LikeMore.fetch_between_click_and_response "zoe" watching_a1 a1
           (Some ["kim"; "lee"]) eq_refl).
Defined.

(** Three stories of Ana alone take 3 x 5050 ms; one firing earlier the
    last story is still on screen with the bar full. *)
Example ana_alone_by_timer :
  elapse [ana] 15100 (selectUser ana Closed) =
    Open (setProgress 100 (moveTo ana 2 (mount ana))) /\
  elapse [ana] 15150 (selectUser ana Closed) = Closed.
Proof. split; vm_compute; reflexivity. Qed.

End MoreScenarios.
